(** * Tripos practice app: the question picker and its GitHub progress sync

    A shallow embedding of [script.js].  The script keeps three pieces of
    state (the master set of completed question ids, the set ticked in the
    current session and the SHA of [progress.json] on GitHub) and offers
    three operations on them: loading the progress file, saving it back with
    the SHA as the update guard, and drawing a batch of questions that are
    not completed yet, either uniformly or rotating over the modules.

    The browser and the network are inputs of the model: a reply of the
    GitHub API is a value of [transport], [Math.random] is a stream of
    naturals, and the DOM controls are plain arguments. *)

From Stdlib Require Import List String Ascii ZArith NArith Arith Lia Bool.
From Stdlib Require Import Permutation.
Import ListNotations.
Local Open Scope string_scope.
Local Open Scope list_scope.

(** ** The pieces of the JavaScript runtime the script relies on *)

Module JS.

(** [hay.includes(needle)] *)
Fixpoint includes (hay needle : string) : bool :=
  if String.prefix needle hay then true
  else match hay with
       | EmptyString => false
       | String _ rest => includes rest needle
       end.

(** A [Set] of strings, in insertion order. *)
Definition jsset := list string.

Definition has (s : jsset) (x : string) : bool := existsb (String.eqb x) s.

Definition add (x : string) (s : jsset) : jsset :=
  if has s x then s else s ++ [x].

Definition delete (x : string) (s : jsset) : jsset :=
  filter (fun y => negb (String.eqb x y)) s.

(** [s.forEach(item => body)], the body acting on a state [S]. *)
Definition forEach {S : Type} (s : jsset) (body : string -> S -> S) (st : S) : S :=
  fold_left (fun acc item => body item acc) s st.

(** [new Set(items)] *)
Definition new_Set (items : list string) : jsset :=
  fold_left (fun s x => add x s) items [].

(** A plain object: its own properties in the order they were created. *)
Definition obj (V : Type) := list (string * V).

(** The property names every plain object inherits from [Object.prototype]. *)
Definition object_prototype_names : list string :=
  [ "constructor"; "__defineGetter__"; "__defineSetter__"; "hasOwnProperty";
    "__lookupGetter__"; "__lookupSetter__"; "isPrototypeOf";
    "propertyIsEnumerable"; "toString"; "valueOf"; "__proto__";
    "toLocaleString" ].

Definition inherited (k : string) : bool :=
  existsb (String.eqb k) object_prototype_names.

Fixpoint get_own {V : Type} (o : obj V) (k : string) : option V :=
  match o with
  | [] => None
  | (k', v) :: rest => if String.eqb k k' then Some v else get_own rest k
  end.

(** What [o[k]] evaluates to on an object created by [{}]. *)
Inductive property (V : Type) : Type :=
| Own (v : V)
| Inherited
| Undefined.
Arguments Own {V} v.
Arguments Inherited {V}.
Arguments Undefined {V}.

Definition get {V : Type} (o : obj V) (k : string) : property V :=
  match get_own o k with
  | Some v => Own v
  | None => if inherited k then Inherited else Undefined
  end.

(** [o[k] = v] on an own or fresh property. *)
Fixpoint put {V : Type} (o : obj V) (k : string) (v : V) : obj V :=
  match o with
  | [] => [(k, v)]
  | (k', v') :: rest =>
      if String.eqb k k' then (k', v) :: rest else (k', v') :: put rest k v
  end.

(** Array indices ("0", "1", ... "4294967294") are enumerated first, in
    ascending order; the other names follow in creation order. *)
Definition digit_val (c : ascii) : option N :=
  let n := N_of_ascii c in
  if ((48 <=? n) && (n <=? 57))%N then Some (n - 48)%N else None.

Fixpoint parse_digits (acc : N) (s : string) : option N :=
  match s with
  | EmptyString => Some acc
  | String c rest =>
      match digit_val c with
      | Some d => parse_digits (acc * 10 + d)%N rest
      | None => None
      end
  end.

Definition array_index (s : string) : option N :=
  match s with
  | EmptyString => None
  | String "0"%char EmptyString => Some 0%N
  | String "0"%char _ => None
  | _ => match parse_digits 0%N s with
         | Some n => if (n <=? 4294967294)%N then Some n else None
         | None => None
         end
  end.

Fixpoint insert_by_index {V : Type} (e : N * (string * V))
  (l : list (N * (string * V))) : list (N * (string * V)) :=
  match l with
  | [] => [e]
  | h :: t => if (fst e <? fst h)%N then e :: l else h :: insert_by_index e t
  end.

Definition indexed {V : Type} (o : obj V) : list (N * (string * V)) :=
  flat_map (fun e => match array_index (fst e) with
                     | Some n => [(n, e)]
                     | None => []
                     end) o.

Definition named {V : Type} (o : obj V) : list (string * V) :=
  filter (fun e => match array_index (fst e) with
                   | Some _ => false
                   | None => true
                   end) o.

(** The properties of [o] in the order [for (k in o)] visits them. *)
Definition for_in {V : Type} (o : obj V) : list (string * V) :=
  map snd (fold_right insert_by_index [] (indexed o)) ++ named o.

(** [Object.keys(o)] *)
Definition keys {V : Type} (o : obj V) : list string := map fst (for_in o).

(** [l.indexOf(x)]; [None] stands for -1. *)
Fixpoint indexOf (l : list string) (x : string) : option nat :=
  match l with
  | [] => None
  | y :: rest =>
      if String.eqb x y then Some 0
      else match indexOf rest x with
           | Some i => Some (S i)
           | None => None
           end
  end.

(** [l.splice(i, 1)]: the removed element, if any, and what is left. *)
Definition splice1 {A : Type} (i : nat) (l : list A) : option A * list A :=
  (nth_error l i, firstn i l ++ skipn (S i) l).

(** [l.splice(l.indexOf(x), 1)]; with -1 [splice] counts from the end. *)
Definition splice_indexOf (l : list string) (x : string) : list string :=
  match indexOf l x with
  | Some i => snd (splice1 i l)
  | None => removelast l
  end.

(** [Math.floor(Math.random() * len)], [r] being what the generator gives. *)
Definition rand_index (r len : nat) : nat :=
  match len with
  | 0 => 0
  | _ => r mod len
  end.
Arguments rand_index : simpl never.

(** The result of [parseInt(text, 10)]. *)
Inductive number : Type :=
| NaN
| Int (z : Z).

(** [c < n] and [c >= n] for a counter [c]; both are false on [NaN]. *)
Definition lt_num (c : nat) (n : number) : bool :=
  match n with
  | NaN => false
  | Int z => (Z.of_nat c <? z)%Z
  end.

Definition ge_num (c : nat) (n : number) : bool :=
  match n with
  | NaN => false
  | Int z => (z <=? Z.of_nat c)%Z
  end.

End JS.

(** ** The catalog and its flattening *)

Record question : Type := mkQuestion
  { id : string; module : string; paper : string; year : string }.

(** [allQuestionsData.michaelmas]: module name, paper name, list of years. *)
Definition catalog := JS.obj (JS.obj (list string)).

Definition composite_id (moduleName paperName year : string) : string :=
  (moduleName ++ "_" ++ paperName ++ "_" ++ year)%string.

Definition push_year (moduleName paperName : string) (flat : list question)
  (year : string) : list question :=
  flat ++ [ {| id := composite_id moduleName paperName year;
               module := moduleName; paper := paperName; year := year |} ].

Definition push_paper (moduleName : string) (flat : list question)
  (entry : string * list string) : list question :=
  fold_left (push_year moduleName (fst entry)) (snd entry) flat.

Definition push_module (flat : list question)
  (entry : string * JS.obj (list string)) : list question :=
  fold_left (push_paper (fst entry)) (JS.for_in (snd entry)) flat.

Definition getFlattenedQuestions (modules : catalog) : list question :=
  fold_left push_module (JS.for_in modules) [].

(** The spec's wording of the same traversal: one record per category,
    subcategory and label, in traversal order. *)
Definition flatten_spec (modules : catalog) : list question :=
  flat_map (fun m =>
    flat_map (fun p =>
      map (fun y => mkQuestion (composite_id (fst m) (fst p) y) (fst m) (fst p) y)
          (snd p))
      (JS.for_in (snd m)))
    (JS.for_in modules).

(** ** Talking to GitHub *)

(** What the network does with one request: [fetch] (or reading the body)
    rejects, the response is not [ok] and carries an error document, or the
    response is [ok] and carries [data]. *)
Inductive transport (A : Type) : Type :=
| Rejected (message : string)
| NotOk (message : option string) (statusText : string)
| Replied (data : A).
Arguments Rejected {A} message.
Arguments NotOk {A} message statusText.
Arguments Replied {A} data.

(** How a call ends: with a value or with a thrown [Error]. *)
Inductive completion (A : Type) : Type :=
| Returned (a : A)
| Thrown (message : string).
Arguments Returned {A} a.
Arguments Thrown {A} message.

Definition falsy (s : string) : bool :=
  match s with
  | EmptyString => true
  | _ => false
  end.

(** [errorData.message || response.statusText] *)
Definition message_or (message : option string) (statusText : string) : string :=
  match message with
  | Some m => if falsy m then statusText else m
  | None => statusText
  end.

(** Whether [githubApiFetch] gets as far as sending its request. *)
Definition sends (repo pat : string) : bool := negb (falsy repo || falsy pat).

Definition githubApiFetch {A : Type} (repo pat : string) (reply : transport A)
  : completion A :=
  if falsy repo || falsy pat
  then Thrown "GitHub Repo and Personal Access Token must be provided."
  else match reply with
       | Rejected message => Thrown message
       | NotOk message statusText =>
           Thrown ("GitHub API Error: " ++ message_or message statusText)%string
       | Replied data => Returned data
       end.

(** The answer to a GET of [progress.json]: its SHA, and what decoding its
    content ([atob], then [JSON.parse]) ends with. *)
Record fileData : Type := mkFileData
  { sha : string; doneItems : completion (list string) }.

Inductive request : Type :=
| GET
| PUT (content : list string) (guard : option string).

Inductive status : Type :=
| Loaded (n : nat)
| NotFoundInRepo
| LoadError (message : string)
| NothingToSave
| Saving
| Saved (n total : nat)
| SaveError (message : string).

(** The [isError] flag each message is shown with. *)
Definition isError (s : status) : bool :=
  match s with
  | Loaded _ | NotFoundInRepo | Saving | Saved _ _ => false
  | LoadError _ | NothingToSave | SaveError _ => true
  end.

Record store : Type := mkStore
  { masterDoneList : JS.jsset;
    sessionDoneList : JS.jsset;
    githubFileSha : option string }.

Record result : Type := mkResult
  { after : store; shown : status; traffic : list request }.

Definition with_master (st : store) (m : JS.jsset) : store :=
  {| masterDoneList := m;
     sessionDoneList := sessionDoneList st;
     githubFileSha := githubFileSha st |}.

Definition with_session (st : store) (s : JS.jsset) : store :=
  {| masterDoneList := masterDoneList st;
     sessionDoneList := s;
     githubFileSha := githubFileSha st |}.

Definition with_sha (st : store) (h : option string) : store :=
  {| masterDoneList := masterDoneList st;
     sessionDoneList := sessionDoneList st;
     githubFileSha := h |}.

(** The [catch] block of [loadProgressFromGithub]. *)
Definition load_catch (message : string) (st : store) : store * status :=
  if JS.includes message "Not Found"
  then (with_master st (JS.new_Set []), NotFoundInRepo)
  else (st, LoadError message).

Definition loadProgressFromGithub (repo pat : string)
  (reply : transport fileData) (st : store) : result :=
  let sent := if sends repo pat then [GET] else [] in
  match githubApiFetch repo pat reply with
  | Thrown message =>
      let (st', s) := load_catch message st in
      {| after := st'; shown := s; traffic := sent |}
  | Returned data =>
      let st1 := with_sha st (Some (sha data)) in
      match doneItems data with
      | Thrown message =>
          let (st', s) := load_catch message st1 in
          {| after := st'; shown := s; traffic := sent |}
      | Returned items =>
          let st2 := with_master st1 (JS.new_Set items) in
          {| after := st2;
             shown := Loaded (List.length (masterDoneList st2));
             traffic := sent |}
      end
  end.

(** The [catch] block of [saveProgressToGithub]. *)
Definition save_catch (message : string) (st : store) : store * status :=
  (with_master st (JS.forEach (sessionDoneList st) JS.delete (masterDoneList st)),
   SaveError message).

(** The inner [try]: the SHA to guard the write with. *)
Definition latest_sha (repo pat : string) (get_reply : transport fileData)
  : completion (option string) :=
  match githubApiFetch repo pat get_reply with
  | Returned data => Returned (Some (sha data))
  | Thrown message =>
      if negb (JS.includes message "Not Found") then Thrown message
      else Returned None
  end.

(** Strings stand for JavaScript strings by their UTF-8 bytes, so a
    character above U+00FF shows as a byte of 196 or more. *)
Definition latin1 (s : string) : bool :=
  forallb (fun c => (N_of_ascii c <? 196)%N) (list_ascii_of_string s).

(** [btoa(JSON.stringify(ids))].  [JSON.stringify] leaves the characters
    above U+00FF as they are and [btoa] throws on them; the encoded text is
    kept as the list it encodes. *)
Definition btoa (ids : list string) : completion (list string) :=
  if forallb latin1 ids then Returned ids
  else Thrown "The string to be encoded contains characters outside of the Latin1 range.".

(** The [try] block of [saveProgressToGithub] with its [catch]: [st1] is
    the store after the merge.  [put_reply] carries [data.content.sha] of
    the answer to the PUT; [rerender] is how redrawing the result list
    ends. *)
Definition send_save (repo pat : string)
  (get_reply : transport fileData) (put_reply : transport string)
  (rerender : completion unit) (st1 : store) (encodedContent : list string)
  : result :=
  let sent_get := if sends repo pat then [GET] else [] in
  match latest_sha repo pat get_reply with
  | Thrown message =>
      let (st', s) := save_catch message st1 in
      {| after := st'; shown := s; traffic := sent_get |}
  | Returned latest =>
      let st2 := with_sha st1 latest in
      let sent_put :=
        if sends repo pat then [PUT encodedContent (githubFileSha st2)] else [] in
      match githubApiFetch repo pat put_reply with
      | Thrown message =>
          let (st', s) := save_catch message st2 in
          {| after := st'; shown := s; traffic := sent_get ++ sent_put |}
      | Returned newSha =>
          let st3 := with_sha st2 (Some newSha) in
          let ok := Saved (List.length (sessionDoneList st3))
                          (List.length (masterDoneList st3)) in
          let st4 := with_session st3 [] in
          match rerender with
          | Returned _ =>
              {| after := st4; shown := ok; traffic := sent_get ++ sent_put |}
          | Thrown message =>
              let (st', s) := save_catch message st4 in
              {| after := st'; shown := s; traffic := sent_get ++ sent_put |}
          end
      end
  end.

(** [saveProgressToGithub].  The merge and [btoa] come before the [try]:
    when [btoa] throws, the function ends there, with the merge done, the
    "Saving..." message on the page and nothing sent. *)
Definition saveProgressToGithub (repo pat : string)
  (get_reply : transport fileData) (put_reply : transport string)
  (rerender : completion unit) (st : store) : result :=
  if (List.length (sessionDoneList st) =? 0)%nat
  then {| after := st; shown := NothingToSave; traffic := [] |}
  else
    let st1 :=
      with_master st (JS.forEach (sessionDoneList st) JS.add (masterDoneList st)) in
    let contentToSave := masterDoneList st1 in
    match btoa contentToSave with
    | Thrown _ => {| after := st1; shown := Saving; traffic := [] |}
    | Returned encodedContent =>
        send_save repo pat get_reply put_reply rerender st1 encodedContent
    end.

(** Whether [btoa] returns for what a save of [st] would write. *)
Definition encodes (st : store) : bool :=
  forallb latin1 (JS.forEach (sessionDoneList st) JS.add (masterDoneList st)).

(** A save fails when the re-fetch throws something other than "Not Found"
    or the PUT throws. *)
Definition save_fails (repo pat : string) (get_reply : transport fileData)
  (put_reply : transport string) : bool :=
  match latest_sha repo pat get_reply with
  | Thrown _ => true
  | Returned _ =>
      match githubApiFetch repo pat put_reply with
      | Thrown _ => true
      | Returned _ => false
      end
  end.

(** ** Choosing questions *)

(** The candidates: not completed, and matching the two filters. *)
Definition by_module (moduleFilter : string) (l : list question) : list question :=
  if String.eqb moduleFilter "all" then l
  else filter (fun q => String.eqb (module q) moduleFilter) l.

Definition by_paper (paperFilter : string) (l : list question) : list question :=
  if String.eqb paperFilter "all" then l
  else filter (fun q => String.eqb (paper q) paperFilter) l.

Definition candidates (modules : catalog) (done : JS.jsset)
  (moduleFilter paperFilter : string) : list question :=
  by_paper paperFilter
    (by_module moduleFilter
       (filter (fun q => negb (JS.has done (id q))) (getFlattenedQuestions modules))).

(** The callback of [available.reduce]; [None] is the [TypeError] of
    calling [push] on something that is not an array. *)
Definition group_step (acc : option (JS.obj (list question))) (q : question)
  : option (JS.obj (list question)) :=
  match acc with
  | None => None
  | Some o =>
      match JS.get o (module q) with
      | JS.Undefined => Some (JS.put o (module q) [q])
      | JS.Own bucket => Some (JS.put o (module q) (bucket ++ [q]))
      | JS.Inherited => None
      end
  end.

Definition group_by_module (available : list question)
  : option (JS.obj (list question)) :=
  fold_left group_step available (Some []).

(** The variables of the homogeneous branch; [draws] counts the calls of
    [Math.random]. *)
Record rotation : Type := mkRotation
  { questionsByModule : JS.obj (list question);
    moduleKeys : list string;
    selected : list question;
    count : nat;
    draws : nat }.

Section Selection.

Variable random : nat -> nat.
Variable num : JS.number.

(** The body of the [for] loop after its [break] test. *)
Definition draw (mod_ : string) (st : rotation) : option rotation :=
  match JS.get_own (questionsByModule st) mod_ with
  | None => None
  | Some bucket =>
      let q_idx := JS.rand_index (random (draws st)) (List.length bucket) in
      let (question, rest) := JS.splice1 q_idx bucket in
      let buckets := JS.put (questionsByModule st) mod_ rest in
      let sel := match question with
                 | Some q => selected st ++ [q]
                 | None => selected st
                 end in
      let cnt := match question with
                 | Some _ => S (count st)
                 | None => count st
                 end in
      let ks := if (List.length rest =? 0)%nat
                then JS.splice_indexOf (moduleKeys st) mod_
                else moduleKeys st in
      Some {| questionsByModule := buckets; moduleKeys := ks;
              selected := sel; count := cnt; draws := S (draws st) |}
  end.

(** [for (const mod of moduleKeys)] from position [i] of the array on: the
    iterator reads the array as it is at each step.  [fuel] bounds the steps
    left; [length moduleKeys] of them are always enough. *)
Fixpoint for_of (fuel i : nat) (st : rotation) : option rotation :=
  match fuel with
  | 0 => Some st
  | S fuel' =>
      match nth_error (moduleKeys st) i with
      | None => Some st
      | Some mod_ =>
          if JS.ge_num (count st) num then Some st
          else match draw mod_ st with
               | None => None
               | Some st' => for_of fuel' (S i) st'
               end
      end
  end.

Definition pass (st : rotation) : option rotation :=
  for_of (List.length (moduleKeys st)) 0 st.

(** How running [generateQuestions] ends: it renders a list, it returns at
    once because the catalog is missing, it throws, or (out of fuel) it is
    still inside its [while] loop with [selected] as it then stands. *)
Inductive outcome : Type :=
| Rendered (questions : list question)
| NotLoaded
| TypeError
| Spinning (selected_so_far : list question).

(** [while (count < num && available.length > 0)] of the homogeneous
    branch; [available] is not touched there. *)
Fixpoint rotate (fuel : nat) (available : list question) (st : rotation)
  : outcome :=
  match fuel with
  | 0 => Spinning (selected st)
  | S fuel' =>
      if JS.lt_num (count st) num && (0 <? List.length available)%nat
      then match pass st with
           | None => TypeError
           | Some st' => rotate fuel' available st'
           end
      else Rendered (selected st)
  end.

Definition homogeneous (fuel : nat) (available : list question) : outcome :=
  match group_by_module available with
  | None => TypeError
  | Some buckets =>
      rotate fuel available
        {| questionsByModule := buckets; moduleKeys := JS.keys buckets;
           selected := []; count := 0; draws := 0 |}
  end.

(** [while (selected.length < num && available.length > 0)] of the random
    branch.  Every turn shortens [available], so [length available] turns
    of [fuel] are enough.  The index is within bounds whenever the guard
    holds, so [splice] always hands over a question and the last branch of
    the [match] is never taken. *)
Fixpoint fully_random (fuel drawn : nat) (sel available : list question)
  : list question :=
  match fuel with
  | 0 => sel
  | S fuel' =>
      if JS.lt_num (List.length sel) num && (0 <? List.length available)%nat
      then let randomIndex := JS.rand_index (random drawn) (List.length available) in
           match JS.splice1 randomIndex available with
           | (Some q, rest) => fully_random fuel' (S drawn) (sel ++ [q]) rest
           | (None, _) => sel
           end
      else sel
  end.

Definition generateQuestions (fuel : nat) (allQuestionsData : option catalog)
  (done : JS.jsset) (moduleFilter paperFilter : string) (modeRandom : bool)
  : outcome :=
  match allQuestionsData with
  | None => NotLoaded
  | Some modules =>
      let available := candidates modules done moduleFilter paperFilter in
      if (List.length available =? 0)%nat then Rendered []
      else if negb modeRandom && String.eqb moduleFilter "all"
      then homogeneous fuel available
      else Rendered (fully_random (List.length available) 0 [] available)
  end.

End Selection.

(** ** The rest of the page *)

(** [handleResultCheckboxChange]; [type_] is [event.target.type],
    [questionId] its [dataset.id]. *)
Definition handleResultCheckboxChange (type_ questionId : string)
  (checked : bool) (st : store) : store :=
  if String.eqb type_ "checkbox"
  then if checked
       then with_session st (JS.add questionId (sessionDoneList st))
       else with_session st (JS.delete questionId (sessionDoneList st))
  else st.

(** [localStorage]: [getItem] gives [None] for [null]. *)
Definition getItem (storage : JS.obj string) (k : string) : option string :=
  JS.get_own storage k.

(** What [githubApiFetch] leaves in [localStorage]. *)
Definition stored_by_fetch (repo pat : string) (storage : JS.obj string)
  : JS.obj string :=
  if falsy repo || falsy pat then storage
  else JS.put (JS.put storage "githubRepo" repo) "githubPat" pat.

(** [loadLocalConfig]; [inputs] are the values of the two text fields. *)
Definition loadLocalConfig (storage : JS.obj string) (inputs : string * string)
  : string * string :=
  let repo := getItem storage "githubRepo" in
  let pat := getItem storage "githubPat" in
  (match repo with
   | Some r => if falsy r then fst inputs else r
   | None => fst inputs
   end,
   match pat with
   | Some t => if falsy t then snd inputs else t
   | None => snd inputs
   end).

(** [populateModuleFilter]: the option values of the module drop-down. *)
Definition populateModuleFilter (options : list string)
  (allQuestionsData : option catalog) : list string :=
  match allQuestionsData with
  | None => options
  | Some modules => options ++ JS.keys modules
  end.

(** [populatePaperFilter]: the option values of the paper drop-down.
    [Object.keys] throws on [undefined] and gives no key for what every
    object inherits. *)
Definition populatePaperFilter (selectedModule : string)
  (allQuestionsData : option catalog) : completion (list string) :=
  if String.eqb selectedModule "all" then Returned ["all"]
  else match allQuestionsData with
       | None => Returned ["all"]
       | Some modules =>
           match JS.get modules selectedModule with
           | JS.Own papers => Returned ("all" :: JS.keys papers)
           | JS.Inherited => Returned ["all"]
           | JS.Undefined => Thrown "Cannot convert undefined or null to object"
           end
       end.

(** [\d] and [\w].  Labels are byte strings here; a byte above 127 is no
    word character, as no character outside ASCII is one for [\w]. *)
Definition is_digit (c : ascii) : bool :=
  let n := N_of_ascii c in ((48 <=? n) && (n <=? 57))%N.

Definition is_word (c : ascii) : bool :=
  let n := N_of_ascii c in
  (((48 <=? n) && (n <=? 57)) || ((65 <=? n) && (n <=? 90))
   || ((97 <=? n) && (n <=? 122)) || (n =? 95))%N.

(** [((19|20)\d{2})\b] at the head of [s] *)
Definition year_here (s : string) : option string :=
  match s with
  | String a (String b (String c (String d rest))) =>
      if ((Ascii.eqb a "1" && Ascii.eqb b "9") || (Ascii.eqb a "2" && Ascii.eqb b "0"))
         && is_digit c && is_digit d
         && match rest with
            | EmptyString => true
            | String e _ => negb (is_word e)
            end
      then Some (String a (String b (String c (String d EmptyString))))
      else None
  | _ => None
  end.

(** [s.match(/\b((19|20)\d{2})\b/)], the leftmost match if there is one;
    [after_word] tells whether the character before [s] is a word character. *)
Fixpoint match_year (after_word : bool) (s : string) : option string :=
  match s with
  | EmptyString => None
  | String c rest =>
      match (if after_word then None else year_here s) with
      | Some y => Some y
      | None => match_year (is_word c) rest
      end
  end.

(** One [li] of the result list. *)
Record item : Type := mkItem
  { li_id : string;
    completed : bool;
    disabled : bool;
    checked : bool;
    href : string;
    new_tab : bool;
    title : option string;
    text : string }.

Definition render_item (master session : JS.jsset) (q : question) : item :=
  let isCompleted := JS.has master (id q) in
  let yearClean := match_year false (year q) in
  {| li_id := id q;
     completed := isCompleted;
     disabled := isCompleted;
     checked := JS.has session (id q);
     href := match yearClean with
             | Some y =>
                 ("https://camcribs.com/viewer?year=IB&type=tripos&module="
                  ++ module q ++ "&id=QP_" ++ y)%string
             | None => "#"
             end;
     new_tab := match yearClean with
                | Some _ => true
                | None => false
                end;
     title := match yearClean with
              | Some _ => None
              | None => Some "Could not extract year for link"
              end;
     text := (module q ++ " - " ++ paper q ++ " - " ++ year q)%string |}.

(** What [renderResults] leaves on the page. *)
Inductive view : Type :=
| Placeholder
| Listed (items : list item).

Definition renderResults (master session : JS.jsset) (questions : list question)
  : view :=
  match questions with
  | [] => Placeholder
  | _ => Listed (map (render_item master session) questions)
  end.

(** The end of a save that went through: the questions whose [li] is on the
    page ([displayed] holds their ids) are drawn again. *)
Definition redisplay (allQuestionsData : option catalog)
  (displayed : list string) (st : store) : completion view :=
  match allQuestionsData with
  | None => Thrown "Cannot read properties of null (reading 'michaelmas')"
  | Some modules =>
      Returned
        (renderResults (masterDoneList st) (sessionDoneList st)
           (filter (fun q => existsb (String.eqb (id q)) displayed)
              (getFlattenedQuestions modules)))
  end.

(** What the user does, one handler at a time: each handler is taken to
    have finished before the next one starts. *)
Inductive action : Type :=
| ClickLoad (repo pat : string) (reply : transport fileData)
| ClickSave (repo pat : string) (get_reply : transport fileData)
    (put_reply : transport string) (rerender : completion unit)
| Change (type_ questionId : string) (checked : bool).

Definition perform (st : store) (a : action) : store :=
  match a with
  | ClickLoad repo pat reply => after (loadProgressFromGithub repo pat reply st)
  | ClickSave repo pat get_reply put_reply rerender =>
      after (saveProgressToGithub repo pat get_reply put_reply rerender st)
  | Change type_ questionId checked =>
      handleResultCheckboxChange type_ questionId checked st
  end.

(** The state the script starts in. *)
Definition fresh_page : store :=
  {| masterDoneList := []; sessionDoneList := []; githubFileSha := None |}.

Definition run (actions : list action) : store :=
  fold_left perform actions fresh_page.

(** [n] turns of the [while] loop of the homogeneous branch. *)
Fixpoint passes (random : nat -> nat) (num : JS.number) (n : nat)
  (st : rotation) : option rotation :=
  match n with
  | 0 => Some st
  | S n' =>
      match pass random num st with
      | Some st1 => passes random num n' st1
      | None => None
      end
  end.

(** Every bucket holds questions of its own module only. *)
Definition filed_by_module (o : JS.obj (list question)) : Prop :=
  Forall (fun e => Forall (fun q => module q = fst e) (snd e)) o.

(** The bucket a name stands for, [[]] when there is none. *)
Definition bucket_of (o : JS.obj (list question)) (k : string) : list question :=
  match JS.get_own o k with
  | Some b => b
  | None => []
  end.

(** ** Notions the properties are stated with *)

(** How many questions a request for [num] asks for. *)
Definition wanted (num : JS.number) : nat :=
  match num with
  | JS.NaN => 0
  | JS.Int z => Z.to_nat z
  end.

(** The questions still in the buckets. *)
Definition remaining (o : JS.obj (list question)) : list question :=
  List.concat (map snd o).

(** Buckets as [reduce] builds them: one per name, none of them empty. *)
Definition well_grouped (o : JS.obj (list question)) : Prop :=
  NoDup (map fst o) /\ (forall k b, JS.get_own o k = Some b -> b <> []).

(** What holds of the variables of the homogeneous branch between two
    draws, [available] being the candidates it started from: every candidate
    is either selected or still in a bucket, [count] counts the selection,
    and [moduleKeys] lists exactly the buckets that are not empty. *)
Record consistent (available : list question) (st : rotation) : Prop :=
  { drawn_or_left :
      Permutation (selected st ++ remaining (questionsByModule st)) available;
    count_selected : count st = List.length (selected st);
    buckets_distinct : NoDup (map fst (questionsByModule st));
    keys_nonempty :
      forall k, In k (moduleKeys st)
                <-> exists b, JS.get_own (questionsByModule st) k = Some b /\ b <> [];
    keys_distinct : NoDup (moduleKeys st) }.

(** Which module each selected question is from, the rotation as it
    stands, and how many questions each bucket still holds. *)
Definition tally (st : rotation)
  : list string * list string * list (string * nat) :=
  (map module (selected st), moduleKeys st,
   map (fun e => (fst e, List.length (snd e))) (questionsByModule st)).

(** ** Inputs used in the worked cases below *)

Definition some_repo : string := "someone/progress".
Definition some_pat : string := "token".

(** GitHub's answers: the file with SHA [h] holding [items], a 404, and the
    409 of a PUT whose SHA is stale. *)
Definition found (h : string) (items : list string) : transport fileData :=
  Replied (mkFileData h (Returned items)).

Definition missing {A : Type} : transport A :=
  NotOk (Some "Not Found") "Not Found".

Definition conflict : transport string :=
  NotOk (Some "progress.json does not match") "Conflict".

Definition fresh_tick : store :=
  {| masterDoneList := ["Chem_P1_2020"];
     sessionDoneList := ["Bio_P1_2019"];
     githubFileSha := Some "abc" |}.

(** A question that was on screen, then arrived in the master set through a
    load, and was ticked afterwards. *)
Definition stale_tick : store :=
  {| masterDoneList := ["Chem_P1_2020"; "Bio_P1_2019"];
     sessionDoneList := ["Chem_P1_2020"];
     githubFileSha := Some "abc" |}.

(** An id with an en dash (U+2013, the bytes 226 128 147), as a year label
    such as "2019 - Q3" typed with a dash gives, and a store where it is
    ticked. *)
Definition dash_id : string :=
  ("Bio_P1_2019 "
   ++ String (ascii_of_nat 226) (String (ascii_of_nat 128)
        (String (ascii_of_nat 147) " Q3")))%string.

Definition dash_tick : store :=
  {| masterDoneList := ["Chem_P1_2020"];
     sessionDoneList := [dash_id];
     githubFileSha := Some "abc" |}.

(** The catalog of the spec's worked case. *)
Definition chem_bio : catalog :=
  [ ("Chem", [("P1", ["2020"])]); ("Bio", [("P1", ["2019"])]) ].

(** [Math.random] returning 0 every time. *)
Definition lowest : nat -> nat := fun _ => 0.

(** A year entered twice under one paper. *)
Definition twice_listed : catalog :=
  [ ("Chem", [("P1", ["2020"; "2020"])]) ].

(** A module called like a method every object has. *)
Definition odd_name : catalog :=
  [ ("constructor", [("P1", ["2020"])]) ].

(** Three modules with two questions each. *)
Definition three_pairs : catalog :=
  [ ("Maths", [("P1", ["2019"; "2020"])]);
    ("Bio", [("P1", ["2019"; "2020"])]);
    ("Chem", [("P1", ["2019"; "2020"])]) ].

(** Four modules with two, one, three and three questions. *)
Definition lopsided : catalog :=
  [ ("Maths", [("P1", ["2019"; "2020"])]);
    ("Earth", [("P1", ["2019"])]);
    ("Bio", [("P1", ["2018"; "2019"; "2020"])]);
    ("Chem", [("P1", ["2018"; "2019"; "2020"])]) ].

(** * Properties *)

(** ** Sets *)

Lemma has_true_iff (s : JS.jsset) (x : string) : JS.has s x = true <-> In x s.
Proof.
  unfold JS.has. rewrite existsb_exists. split.
  - intros [y [Hy Heq]]. apply String.eqb_eq in Heq. now subst.
  - intros Hin. exists x. split; [assumption | apply String.eqb_refl].
Qed.

Lemma has_false_iff (s : JS.jsset) (x : string) : JS.has s x = false <-> ~ In x s.
Proof.
  rewrite <- has_true_iff. destruct (JS.has s x); split; congruence.
Qed.

(** Adding a whole set only appends, and only elements of that set. *)
Lemma forEach_add_appends (delta master : JS.jsset) :
  exists extra,
    JS.forEach delta JS.add master = master ++ extra
    /\ (forall x, In x extra -> In x delta)
    /\ (forall x, In x delta -> In x (master ++ extra)).
Proof.
  unfold JS.forEach. revert master.
  induction delta as [|d delta IH]; intros master; simpl.
  - exists []. rewrite app_nil_r. repeat split; intros x []; assumption.
  - destruct (IH (JS.add d master)) as [extra [Heq [Hsub Hall]]].
    unfold JS.add in *. destruct (JS.has master d) eqn:Hd.
    + exists extra. split; [exact Heq|]. split.
      * intros x Hx. right. now apply Hsub.
      * intros x [<- | Hx]; [|now apply Hall].
        apply in_or_app. left. now apply has_true_iff.
    + exists (d :: extra). rewrite Heq, <- app_assoc. split; [reflexivity|]. split.
      * intros x [<- | Hx]; [now left | right; now apply Hsub].
      * intros x [<- | Hx].
        -- apply in_or_app. right. now left.
        -- specialize (Hall x Hx). rewrite <- app_assoc in Hall. exact Hall.
Qed.

Lemma forEach_add_union (delta master : JS.jsset) (x : string) :
  In x (JS.forEach delta JS.add master) <-> In x master \/ In x delta.
Proof.
  destruct (forEach_add_appends delta master) as [extra [-> [Hsub Hall]]].
  rewrite in_app_iff. split.
  - intros [H | H]; [now left | right; now apply Hsub].
  - intros [H | H]; [now left | apply in_app_iff; now apply Hall].
Qed.

(** Deleting a whole set filters its elements out. *)
Lemma forEach_delete_filter (delta m : JS.jsset) :
  JS.forEach delta JS.delete m = filter (fun y => negb (JS.has delta y)) m.
Proof.
  unfold JS.forEach. revert m.
  induction delta as [|d delta IH]; intros m; simpl.
  - induction m as [|y m IHm]; simpl; [reflexivity | now rewrite <- IHm].
  - rewrite IH. unfold JS.delete. clear IH.
    induction m as [|y m IHm]; simpl; [reflexivity|].
    rewrite (String.eqb_sym y d).
    destruct (String.eqb d y); simpl; [exact IHm|].
    destruct (JS.has delta y); simpl; [exact IHm | now rewrite IHm].
Qed.

Lemma filter_keeps_all {A : Type} (p : A -> bool) (l : list A) :
  filter p l = l <-> (forall x, In x l -> p x = true).
Proof.
  induction l as [|a l IH]; simpl.
  - split; [intros _ x [] | reflexivity].
  - destruct (p a) eqn:Hp.
    + split.
      * intros Heq x [<- | Hx]; [assumption|].
        injection Heq as Heq. now apply IH.
      * intros Hall. f_equal. apply IH. intros x Hx. apply Hall. now right.
    + split.
      * intros Heq. exfalso.
        assert (Hlen : List.length (filter p l) <= List.length l) by apply filter_length_le.
        rewrite Heq in Hlen. simpl in Hlen. lia.
      * intros Hall. specialize (Hall a (or_introl eq_refl)). congruence.
Qed.

Lemma filter_drops_all {A : Type} (p : A -> bool) (l : list A) :
  (forall x, In x l -> p x = false) -> filter p l = [].
Proof.
  induction l as [|a l IH]; simpl; intros Hall; [reflexivity|].
  rewrite (Hall a (or_introl eq_refl)). apply IH. intros x Hx. apply Hall. now right.
Qed.

(** What the rollback leaves of the master set that the merge produced. *)
Lemma merge_then_rollback (delta master : JS.jsset) :
  JS.forEach delta JS.delete (JS.forEach delta JS.add master)
  = filter (fun y => negb (JS.has delta y)) master.
Proof.
  rewrite forEach_delete_filter.
  destruct (forEach_add_appends delta master) as [extra [-> [Hsub _]]].
  rewrite filter_app, (filter_drops_all _ extra), app_nil_r; [reflexivity|].
  intros x Hx. apply Hsub in Hx. apply has_true_iff in Hx. now rewrite Hx.
Qed.

Lemma rollback_exact_iff (delta master : JS.jsset) :
  filter (fun y => negb (JS.has delta y)) master = master
  <-> (forall x, In x delta -> ~ In x master).
Proof.
  rewrite filter_keeps_all. split.
  - intros H x Hd Hm. specialize (H x Hm).
    apply has_true_iff in Hd. rewrite Hd in H. discriminate.
  - intros H x Hm. destruct (JS.has delta x) eqn:Hx; [|reflexivity].
    apply has_true_iff in Hx. exfalso. exact (H x Hx Hm).
Qed.

(** ** Saving *)

(** A save whose list can be encoded is the merge followed by the [try]
    block. *)
Lemma save_encoded
  (repo pat : string) (get_reply : transport fileData)
  (put_reply : transport string) (rerender : completion unit) (st : store) :
  sessionDoneList st <> [] ->
  encodes st = true ->
  saveProgressToGithub repo pat get_reply put_reply rerender st
  = send_save repo pat get_reply put_reply rerender
      (with_master st (JS.forEach (sessionDoneList st) JS.add (masterDoneList st)))
      (JS.forEach (sessionDoneList st) JS.add (masterDoneList st)).
Proof.
  intros Hne Henc. unfold saveProgressToGithub, btoa.
  destruct (sessionDoneList st) as [|d delta] eqn:Hs; [congruence|].
  change (List.length (d :: delta) =? 0)%nat with false. cbv iota zeta.
  unfold encodes in Henc. rewrite Hs in Henc.
  cbn [masterDoneList with_master]. now rewrite Henc.
Qed.

(** A save whose list cannot be encoded stops after the merge. *)
Lemma save_unencodable
  (repo pat : string) (get_reply : transport fileData)
  (put_reply : transport string) (rerender : completion unit) (st : store) :
  sessionDoneList st <> [] ->
  encodes st = false ->
  saveProgressToGithub repo pat get_reply put_reply rerender st
  = {| after := with_master st
                  (JS.forEach (sessionDoneList st) JS.add (masterDoneList st));
       shown := Saving; traffic := [] |}.
Proof.
  intros Hne Henc. unfold saveProgressToGithub, btoa.
  destruct (sessionDoneList st) as [|d delta] eqn:Hs; [congruence|].
  change (List.length (d :: delta) =? 0)%nat with false. cbv iota zeta.
  unfold encodes in Henc. rewrite Hs in Henc.
  cbn [masterDoneList with_master]. now rewrite Henc.
Qed.

(** Whether the list can be encoded depends on the two sets only. *)
Lemma encodes_same_sets (st st' : store) :
  masterDoneList st' = masterDoneList st ->
  sessionDoneList st' = sessionDoneList st ->
  encodes st' = encodes st.
Proof. intros Hm Hs. unfold encodes. now rewrite Hm, Hs. Qed.

Section Save.

Variables repo pat : string.
Variable get_reply : transport fileData.
Variable put_reply : transport string.
Variable rerender : completion unit.

(** [save_fails] in terms of what the two requests throw. *)
Lemma save_fails_iff :
  save_fails repo pat get_reply put_reply = true
  <-> (exists message,
         githubApiFetch repo pat get_reply = Thrown message
         /\ JS.includes message "Not Found" = false)
      \/ (exists message, githubApiFetch repo pat put_reply = Thrown message).
Proof.
  unfold save_fails, latest_sha.
  destruct (githubApiFetch repo pat get_reply) as [data | message].
  - destruct (githubApiFetch repo pat put_reply) as [newSha | message'].
    + split; [discriminate|]. intros [[m [H _]] | [m H]]; discriminate.
    + split; [|reflexivity]. intros _. right. now exists message'.
  - destruct (JS.includes message "Not Found") eqn:Hnf; simpl.
    + destruct (githubApiFetch repo pat put_reply) as [newSha | message'].
      * split; [discriminate|].
        intros [[m [H H']] | [m H]]; [|discriminate].
        injection H as <-. congruence.
      * split; [|reflexivity]. intros _. right. now exists message'.
    + split; [|reflexivity]. intros _. left. now exists message.
Qed.

(** The state a failed save leaves: the session untouched, the master set
    without the session's elements. *)
Lemma failed_save_after (st : store) :
  sessionDoneList st <> [] ->
  encodes st = true ->
  save_fails repo pat get_reply put_reply = true ->
  masterDoneList
    (after (saveProgressToGithub repo pat get_reply put_reply rerender st))
  = filter (fun y => negb (JS.has (sessionDoneList st) y)) (masterDoneList st)
  /\ sessionDoneList
       (after (saveProgressToGithub repo pat get_reply put_reply rerender st))
     = sessionDoneList st.
Proof.
  intros Hne Henc Hfail. rewrite (save_encoded _ _ _ _ _ st Hne Henc).
  unfold send_save, save_fails in *.
  destruct (latest_sha repo pat get_reply) as [latest | message].
  - destruct (githubApiFetch repo pat put_reply) as [newSha | message];
      [discriminate|].
    cbn -[JS.forEach]. rewrite merge_then_rollback. now split.
  - cbn -[JS.forEach]. rewrite merge_then_rollback. now split.
Qed.

(** The state a save that went through leaves. *)
Lemma completed_save_after (st : store) :
  sessionDoneList st <> [] ->
  encodes st = true ->
  save_fails repo pat get_reply put_reply = false ->
  exists newSha,
    githubApiFetch repo pat put_reply = Returned newSha
    /\ after (saveProgressToGithub repo pat get_reply put_reply rerender st)
       = {| masterDoneList :=
              JS.forEach (sessionDoneList st) JS.add (masterDoneList st);
            sessionDoneList := [];
            githubFileSha := Some newSha |}.
Proof.
  intros Hne Henc Hok. rewrite (save_encoded _ _ _ _ _ st Hne Henc).
  unfold send_save, save_fails in *.
  destruct (latest_sha repo pat get_reply) as [latest | message];
    [|discriminate].
  destruct (githubApiFetch repo pat put_reply) as [newSha | message];
    [|discriminate].
  exists newSha. split; [reflexivity|].
  destruct rerender as [u | message]; cbn -[JS.forEach]; reflexivity.
Qed.

End Save.

(** C1. When the re-fetch of the SHA throws something other than "Not Found",
    or the PUT throws (a version conflict included), and no id of the session
    set was in the master set before the call, the master set after the
    failed save is the one before the call, the session set is untouched, and
    saving it again, this time with the requests going through, records it.
    That a request fails takes the save to have reached its requests, that
    is, [btoa] to have returned. *)
Theorem failed_save_restores_master
  (repo pat : string) (get_reply : transport fileData)
  (put_reply : transport string) (rerender : completion unit) (st : store) :
  sessionDoneList st <> [] ->
  encodes st = true ->
  (exists message,
      githubApiFetch repo pat get_reply = Thrown message
      /\ JS.includes message "Not Found" = false)
  \/ (exists message, githubApiFetch repo pat put_reply = Thrown message) ->
  (forall x, In x (sessionDoneList st) -> ~ In x (masterDoneList st)) ->
  let st' := after (saveProgressToGithub repo pat get_reply put_reply rerender st) in
  masterDoneList st' = masterDoneList st
  /\ sessionDoneList st' = sessionDoneList st
  /\ (forall repo2 pat2 get2 put2 rerender2,
        save_fails repo2 pat2 get2 put2 = false ->
        let st'' := after (saveProgressToGithub repo2 pat2 get2 put2 rerender2 st') in
        (forall x, In x (masterDoneList st'')
                   <-> In x (masterDoneList st) \/ In x (sessionDoneList st))
        /\ sessionDoneList st'' = []).
Proof.
  intros Hne Henc Hfail Hdisj st'.
  apply save_fails_iff in Hfail.
  destruct (failed_save_after repo pat get_reply put_reply rerender st Hne Henc Hfail)
    as [Hm Hs].
  fold st' in Hm, Hs.
  assert (Hm' : masterDoneList st' = masterDoneList st).
  { rewrite Hm. now apply rollback_exact_iff. }
  split; [exact Hm'|]. split; [exact Hs|].
  intros repo2 pat2 get2 put2 rerender2 Hok st''.
  assert (Hne' : sessionDoneList st' <> []) by now rewrite Hs.
  assert (Henc' : encodes st' = true)
    by now rewrite (encodes_same_sets st st' Hm' Hs).
  destruct (completed_save_after repo2 pat2 get2 put2 rerender2 st' Hne' Henc' Hok)
    as [newSha [_ Hafter]].
  fold st'' in Hafter. rewrite Hafter. simpl. split; [|reflexivity].
  intros x. rewrite forEach_add_union, Hm', Hs. reflexivity.
Qed.

Lemma failed_save_restores_master_witness :
  masterDoneList
    (after (saveProgressToGithub some_repo some_pat
              (found "abc" ["Chem_P1_2020"]) conflict (Returned tt) fresh_tick))
  = ["Chem_P1_2020"]
  /\ sessionDoneList
       (after (saveProgressToGithub some_repo some_pat
                 (found "abc" ["Chem_P1_2020"]) conflict (Returned tt) fresh_tick))
     = ["Bio_P1_2019"].
Proof.
  assert (Hne : sessionDoneList fresh_tick <> []) by discriminate.
  assert (Hfail :
    (exists message,
        githubApiFetch some_repo some_pat (found "abc" ["Chem_P1_2020"])
        = Thrown message
        /\ JS.includes message "Not Found" = false)
    \/ (exists message, githubApiFetch some_repo some_pat conflict = Thrown message)).
  { right. eexists. reflexivity. }
  assert (Hdisj : forall x, In x (sessionDoneList fresh_tick)
                            -> ~ In x (masterDoneList fresh_tick)).
  { simpl. intros x [<- | []] [H | []]. discriminate. }
  destruct (failed_save_restores_master some_repo some_pat
              (found "abc" ["Chem_P1_2020"]) conflict (Returned tt) fresh_tick
              Hne eq_refl Hfail Hdisj) as [Hm [Hs _]].
  split; assumption.
Defined.

(** C10. A failed save deletes every id of the session set from the master
    set: an id the two sets shared before the call is gone from the master
    set afterwards, and the master set comes back as it was exactly when the
    two sets were disjoint.  This is the rollback of the [catch] block, which
    a save reaches only after [btoa] has returned. *)
Theorem failed_save_deletes_shared_ids
  (repo pat : string) (get_reply : transport fileData)
  (put_reply : transport string) (rerender : completion unit) (st : store) :
  sessionDoneList st <> [] ->
  encodes st = true ->
  (exists message,
      githubApiFetch repo pat get_reply = Thrown message
      /\ JS.includes message "Not Found" = false)
  \/ (exists message, githubApiFetch repo pat put_reply = Thrown message) ->
  let st' := after (saveProgressToGithub repo pat get_reply put_reply rerender st) in
  masterDoneList st'
  = filter (fun y => negb (JS.has (sessionDoneList st) y)) (masterDoneList st)
  /\ (forall x, In x (sessionDoneList st) -> In x (masterDoneList st) ->
                ~ In x (masterDoneList st'))
  /\ (masterDoneList st' = masterDoneList st
      <-> (forall x, In x (sessionDoneList st) -> ~ In x (masterDoneList st))).
Proof.
  intros Hne Henc Hfail st'.
  apply save_fails_iff in Hfail.
  destruct (failed_save_after repo pat get_reply put_reply rerender st Hne Henc Hfail)
    as [Hm _].
  fold st' in Hm. split; [exact Hm|]. split.
  - intros x Hd _ Hin. rewrite Hm in Hin. apply filter_In in Hin.
    destruct Hin as [_ Hneg]. apply has_true_iff in Hd. rewrite Hd in Hneg.
    discriminate.
  - rewrite Hm. apply rollback_exact_iff.
Qed.

Lemma failed_save_deletes_shared_ids_witness :
  masterDoneList
    (after (saveProgressToGithub some_repo some_pat
              (found "abc" ["Chem_P1_2020"; "Bio_P1_2019"]) conflict
              (Returned tt) stale_tick))
  = ["Bio_P1_2019"].
Proof.
  assert (Hne : sessionDoneList stale_tick <> []) by discriminate.
  assert (Hfail :
    (exists message,
        githubApiFetch some_repo some_pat
          (found "abc" ["Chem_P1_2020"; "Bio_P1_2019"]) = Thrown message
        /\ JS.includes message "Not Found" = false)
    \/ (exists message, githubApiFetch some_repo some_pat conflict = Thrown message)).
  { right. eexists. reflexivity. }
  destruct (failed_save_deletes_shared_ids some_repo some_pat
              (found "abc" ["Chem_P1_2020"; "Bio_P1_2019"]) conflict
              (Returned tt) stale_tick Hne eq_refl Hfail) as [Hm _].
  exact Hm.
Defined.

(** C6, as the code has it.  A failed save does not always leave the master
    set as it was.  First case: the ticked id was already in the master set
    (it came in through a load after the list was drawn), the PUT is
    refused, and the rollback takes that id out of the master set.  Second
    case: a ticked id holds a character above U+00FF, [btoa] throws before
    the [try] block, nothing is sent, no error is shown and the merge is
    never rolled back. *)
Theorem failed_save_leaves_master_changed :
  (sessionDoneList stale_tick <> []
   /\ encodes stale_tick = true
   /\ save_fails some_repo some_pat
        (found "abc" ["Chem_P1_2020"; "Bio_P1_2019"]) conflict = true
   /\ masterDoneList stale_tick = ["Chem_P1_2020"; "Bio_P1_2019"]
   /\ masterDoneList
        (after (saveProgressToGithub some_repo some_pat
                  (found "abc" ["Chem_P1_2020"; "Bio_P1_2019"]) conflict
                  (Returned tt) stale_tick))
      = ["Bio_P1_2019"])
  /\ (sessionDoneList dash_tick <> []
      /\ saveProgressToGithub some_repo some_pat (found "abc" ["Chem_P1_2020"])
           (Replied "def") (Returned tt) dash_tick
         = {| after :=
                {| masterDoneList := ["Chem_P1_2020"; dash_id];
                   sessionDoneList := [dash_id];
                   githubFileSha := Some "abc" |};
              shown := Saving;
              traffic := [] |}
      /\ masterDoneList dash_tick = ["Chem_P1_2020"]).
Proof.
  split.
  - split; [discriminate|]. repeat split.
  - split; [discriminate|]. split; reflexivity.
Qed.

(** What does hold of a save whose list can be encoded: after a save that
    went through, the master set is the union of the master set before the
    call and the session set, the session set is empty and the SHA is the one
    the PUT answered with; after a failed save the session set is unchanged,
    and the master set is unchanged provided no id of the session set was in
    it before the call. *)
Lemma save_merges_or_rolls_back
  (repo pat : string) (get_reply : transport fileData)
  (put_reply : transport string) (rerender : completion unit) (st : store) :
  sessionDoneList st <> [] ->
  encodes st = true ->
  let st' := after (saveProgressToGithub repo pat get_reply put_reply rerender st) in
  (save_fails repo pat get_reply put_reply = false ->
     (forall x, In x (masterDoneList st')
                <-> In x (masterDoneList st) \/ In x (sessionDoneList st))
     /\ (forall x, In x (sessionDoneList st) -> In x (masterDoneList st'))
     /\ sessionDoneList st' = []
     /\ exists newSha,
          githubApiFetch repo pat put_reply = Returned newSha
          /\ githubFileSha st' = Some newSha)
  /\ (save_fails repo pat get_reply put_reply = true ->
        sessionDoneList st' = sessionDoneList st
        /\ ((forall x, In x (sessionDoneList st) -> ~ In x (masterDoneList st)) ->
            masterDoneList st' = masterDoneList st)).
Proof.
  intros Hne Henc st'. split.
  - intros Hok.
    destruct (completed_save_after repo pat get_reply put_reply rerender st Hne Henc Hok)
      as [newSha [Hput Hafter]].
    fold st' in Hafter. rewrite Hafter. simpl.
    split; [intros x; apply forEach_add_union|].
    split; [intros x Hx; apply forEach_add_union; now right|].
    split; [reflexivity|]. now exists newSha.
  - intros Hfail.
    destruct (failed_save_after repo pat get_reply put_reply rerender st Hne Henc Hfail)
      as [Hm Hs].
    fold st' in Hm, Hs. split; [exact Hs|].
    intros Hdisj. rewrite Hm. now apply rollback_exact_iff.
Qed.

(** C7. With nothing ticked, saving sends no request and leaves the master
    set, the session set and the SHA as they were. *)
Theorem save_of_nothing
  (repo pat : string) (get_reply : transport fileData)
  (put_reply : transport string) (rerender : completion unit) (st : store) :
  sessionDoneList st = [] ->
  saveProgressToGithub repo pat get_reply put_reply rerender st
  = {| after := st; shown := NothingToSave; traffic := [] |}.
Proof.
  intros Hs. unfold saveProgressToGithub. now rewrite Hs.
Qed.

Lemma save_of_nothing_witness :
  saveProgressToGithub some_repo some_pat (found "abc" []) (Replied "def")
    (Returned tt) (with_session fresh_tick [])
  = {| after := with_session fresh_tick [];
       shown := NothingToSave; traffic := [] |}.
Proof.
  apply (save_of_nothing some_repo some_pat (found "abc" []) (Replied "def")
           (Returned tt) (with_session fresh_tick [])).
  reflexivity.
Defined.

(** ** Loading *)

(** C4, as the code has it.  When the request throws with "Not Found" in its
    message, the master set becomes empty and the message is shown as
    information, but the SHA stays what it was: it is not reset.  When the
    request throws anything else, the store is untouched and the message is
    shown as an error. *)
Theorem load_not_found_keeps_sha
  (repo pat : string) (reply : transport fileData) (st : store) (message : string) :
  githubApiFetch repo pat reply = Thrown message ->
  let r := loadProgressFromGithub repo pat reply st in
  (JS.includes message "Not Found" = true ->
     masterDoneList (after r) = []
     /\ githubFileSha (after r) = githubFileSha st
     /\ sessionDoneList (after r) = sessionDoneList st
     /\ shown r = NotFoundInRepo /\ isError (shown r) = false)
  /\ (JS.includes message "Not Found" = false ->
        after r = st /\ shown r = LoadError message /\ isError (shown r) = true).
Proof.
  intros Hthrown r. subst r. unfold loadProgressFromGithub, load_catch.
  rewrite Hthrown. split; intros Hnf; rewrite Hnf; simpl; repeat split.
Qed.

Lemma load_not_found_keeps_sha_witness :
  masterDoneList (after (loadProgressFromGithub some_repo some_pat missing fresh_tick))
  = []
  /\ githubFileSha (after (loadProgressFromGithub some_repo some_pat missing fresh_tick))
     = Some "abc".
Proof.
  destruct (load_not_found_keeps_sha some_repo some_pat missing fresh_tick
              "GitHub API Error: Not Found" eq_refl) as [Hnf _].
  destruct (Hnf eq_refl) as [Hm [Hsha _]].
  split; [exact Hm | exact Hsha].
Defined.

(** ** Flattening *)

Lemma fold_left_appending {A B : Type} (f : A -> list B) (step : list B -> A -> list B)
  (l : list A) (init : list B) :
  (forall acc a, step acc a = acc ++ f a) ->
  fold_left step l init = init ++ flat_map f l.
Proof.
  intros Hstep. revert init.
  induction l as [|a l IH]; intros init; simpl.
  - now rewrite app_nil_r.
  - now rewrite IH, Hstep, <- app_assoc.
Qed.

Lemma push_paper_appends (moduleName : string) (flat : list question)
  (entry : string * list string) :
  push_paper moduleName flat entry
  = flat ++ map (fun y => mkQuestion (composite_id moduleName (fst entry) y)
                            moduleName (fst entry) y) (snd entry).
Proof.
  unfold push_paper.
  rewrite (fold_left_appending
             (fun y => [mkQuestion (composite_id moduleName (fst entry) y)
                          moduleName (fst entry) y])); [|reflexivity].
  reflexivity.
Qed.

Lemma getFlattenedQuestions_flat_map (modules : catalog) :
  getFlattenedQuestions modules = flatten_spec modules.
Proof.
  unfold getFlattenedQuestions, flatten_spec.
  rewrite (fold_left_appending
             (fun m => flat_map (fun p =>
                map (fun y => mkQuestion (composite_id (fst m) (fst p) y)
                                (fst m) (fst p) y) (snd p))
                (JS.for_in (snd m)))); [reflexivity|].
  intros acc m. unfold push_module.
  apply fold_left_appending. intros acc' p. apply push_paper_appends.
Qed.

(** C8. Flattening is a function of the catalog alone: it visits modules,
    papers and years in enumeration order and emits one record per year,
    whose id is module, paper and year joined by underscores; on the catalog
    {Chem:{P1:["2020"]}, Bio:{P1:["2019"]}} the ids are Chem_P1_2020 and
    Bio_P1_2019, in that order. *)
Theorem getFlattenedQuestions_ids :
  (forall modules, getFlattenedQuestions modules = flatten_spec modules)
  /\ (forall modules q,
        In q (getFlattenedQuestions modules) ->
        id q = composite_id (module q) (paper q) (year q)
        /\ exists papers years,
             In (module q, papers) (JS.for_in modules)
             /\ In (paper q, years) (JS.for_in papers)
             /\ In (year q) years)
  /\ map id (getFlattenedQuestions chem_bio) = ["Chem_P1_2020"; "Bio_P1_2019"].
Proof.
  split; [exact getFlattenedQuestions_flat_map|]. split; [|reflexivity].
  intros modules q. rewrite getFlattenedQuestions_flat_map. unfold flatten_spec.
  rewrite in_flat_map. intros [[m papers] [Hm Hq]].
  rewrite in_flat_map in Hq. destruct Hq as [[p years] [Hp Hq]].
  rewrite in_map_iff in Hq. destruct Hq as [y [<- Hy]]. simpl in *.
  split; [reflexivity|]. exists papers, years. repeat split; assumption.
Qed.

(** ** Arrays and objects *)

Lemma rand_index_lt (r len : nat) : 0 < len -> JS.rand_index r len < len.
Proof.
  destruct len as [|len]; [lia|]. intros _. unfold JS.rand_index.
  apply Nat.mod_upper_bound. discriminate.
Qed.

(** Within bounds [splice(i, 1)] takes one element out of the middle. *)
Lemma splice1_middle {A : Type} (l1 l2 : list A) (q : A) :
  JS.splice1 (List.length l1) (l1 ++ q :: l2) = (Some q, l1 ++ l2).
Proof.
  unfold JS.splice1. induction l1 as [|a l1 IH]; simpl; [reflexivity|].
  injection IH as Hn Hr. now rewrite Hn, Hr.
Qed.

Lemma splice1_in_bounds {A : Type} (i : nat) (l : list A) :
  i < List.length l ->
  exists q l1 l2, l = l1 ++ q :: l2 /\ JS.splice1 i l = (Some q, l1 ++ l2).
Proof.
  intros Hi. destruct (nth_error l i) as [q|] eqn:Hq.
  - destruct (nth_error_split l i Hq) as [l1 [l2 [Hl Hlen]]].
    exists q, l1, l2. split; [exact Hl|]. subst l i. apply splice1_middle.
  - apply nth_error_None in Hq. lia.
Qed.

(** Out of bounds it takes nothing. *)
Lemma splice1_out_of_bounds {A : Type} (i : nat) (l : list A) :
  List.length l <= i -> JS.splice1 i l = (None, l).
Proof.
  intros Hi. unfold JS.splice1. f_equal.
  - now apply nth_error_None.
  - rewrite firstn_all2, skipn_all2 by lia. apply app_nil_r.
Qed.

Lemma indexOf_found (l : list string) (x : string) :
  In x l -> exists i, JS.indexOf l x = Some i.
Proof.
  induction l as [|y l IH]; simpl; [intros []|].
  intros Hin. destruct (String.eqb x y) eqn:Hxy; [now exists 0|].
  destruct Hin as [-> | Hin]; [rewrite String.eqb_refl in Hxy; discriminate|].
  destruct (IH Hin) as [i ->]. now exists (S i).
Qed.

(** Removing the key that is being visited takes out its first occurrence. *)
Lemma splice_indexOf_found (l : list string) (x : string) :
  In x l ->
  exists l1 l2, l = l1 ++ x :: l2 /\ ~ In x l1 /\ JS.splice_indexOf l x = l1 ++ l2.
Proof.
  induction l as [|y l IH]; [intros []|].
  intros Hin. unfold JS.splice_indexOf. simpl.
  destruct (String.eqb x y) eqn:Hxy.
  - apply String.eqb_eq in Hxy. subst y. exists [], l. now repeat split.
  - assert (Hin' : In x l).
    { destruct Hin as [-> | H]; [rewrite String.eqb_refl in Hxy; discriminate | exact H]. }
    destruct (IH Hin') as [l1 [l2 [Hl [Hnot Hs]]]].
    unfold JS.splice_indexOf in Hs.
    destruct (indexOf_found l x Hin') as [i Hi]. rewrite Hi in *.
    exists (y :: l1), l2. split; [now rewrite Hl|]. split.
    + intros [-> | H]; [rewrite String.eqb_refl in Hxy; discriminate | now apply Hnot].
    + unfold JS.splice1 in *. simpl in *. now rewrite Hs.
Qed.

Lemma get_own_put_same {V : Type} (o : JS.obj V) (k : string) (v : V) :
  JS.get_own (JS.put o k v) k = Some v.
Proof.
  induction o as [|[k' v'] o IH]; simpl.
  - now rewrite String.eqb_refl.
  - destruct (String.eqb k k') eqn:Hk; simpl; rewrite Hk; [reflexivity | exact IH].
Qed.

Lemma get_own_put_other {V : Type} (o : JS.obj V) (k k' : string) (v : V) :
  k <> k' -> JS.get_own (JS.put o k v) k' = JS.get_own o k'.
Proof.
  intros Hne. induction o as [|[k0 v0] o IH]; simpl.
  - destruct (String.eqb k' k) eqn:Hk; [|reflexivity].
    apply String.eqb_eq in Hk. congruence.
  - destruct (String.eqb k k0) eqn:Hk; simpl.
    + apply String.eqb_eq in Hk. subst k0.
      destruct (String.eqb k' k) eqn:Hk'; [|reflexivity].
      apply String.eqb_eq in Hk'. congruence.
    + now rewrite IH.
Qed.

(** Assigning to an own property replaces its value where it stands. *)
Lemma put_own {V : Type} (o : JS.obj V) (k : string) (v b : V) :
  JS.get_own o k = Some b ->
  exists o1 o2, o = o1 ++ (k, b) :: o2 /\ JS.put o k v = o1 ++ (k, v) :: o2.
Proof.
  induction o as [|[k' v'] o IH]; simpl; [discriminate|].
  destruct (String.eqb k k') eqn:Hk.
  - apply String.eqb_eq in Hk. subst k'. intros [= ->]. now exists [], o.
  - intros Hb. destruct (IH Hb) as [o1 [o2 [-> ->]]].
    now exists ((k', v') :: o1), o2.
Qed.

(** Assigning to a name that is not an own property appends it. *)
Lemma put_fresh {V : Type} (o : JS.obj V) (k : string) (v : V) :
  JS.get_own o k = None -> JS.put o k v = o ++ [(k, v)].
Proof.
  induction o as [|[k' v'] o IH]; simpl; [reflexivity|].
  destruct (String.eqb k k'); [discriminate|]. intros H. now rewrite IH.
Qed.

Lemma get_own_None {V : Type} (o : JS.obj V) (k : string) :
  JS.get_own o k = None <-> ~ In k (map fst o).
Proof.
  induction o as [|[k' v'] o IH]; simpl; [tauto|].
  destruct (String.eqb k k') eqn:Hk.
  - apply String.eqb_eq in Hk. subst. split; [discriminate | tauto].
  - rewrite IH. apply String.eqb_neq in Hk. split; [intros H [E | I]; congruence | tauto].
Qed.

Lemma get_own_In {V : Type} (o : JS.obj V) (k : string) (v : V) :
  NoDup (map fst o) -> In (k, v) o -> JS.get_own o k = Some v.
Proof.
  induction o as [|[k' v'] o IH]; simpl; [intros _ []|].
  intros Hnd [Heq | Hin].
  - injection Heq as -> ->. now rewrite String.eqb_refl.
  - inversion Hnd as [|? ? Hnot Hnd']. subst.
    destruct (String.eqb k k') eqn:Hk; [|now apply IH].
    apply String.eqb_eq in Hk. subst k'. exfalso. apply Hnot.
    apply in_map_iff. now exists (k, v).
Qed.

(** Enumeration only reorders the properties. *)
Lemma insert_by_index_perm {V : Type} (e : N * (string * V)) (l : list (N * (string * V))) :
  Permutation (JS.insert_by_index e l) (e :: l).
Proof.
  induction l as [|h t IH]; simpl; [reflexivity|].
  destruct (fst e <? fst h)%N; [reflexivity|].
  rewrite IH. apply perm_swap.
Qed.

Lemma for_in_perm {V : Type} (o : JS.obj V) : Permutation (JS.for_in o) o.
Proof.
  unfold JS.for_in.
  transitivity (map snd (JS.indexed o) ++ JS.named o).
  - apply Permutation_app_tail, Permutation_map.
    induction (JS.indexed o) as [|e l IH]; simpl; [reflexivity|].
    rewrite insert_by_index_perm. now constructor.
  - induction o as [|e o IH]; simpl; [reflexivity|].
    unfold JS.indexed, JS.named in *. simpl.
    destruct (JS.array_index (fst e)); simpl.
    + now constructor.
    + rewrite <- Permutation_middle. now constructor.
Qed.

Lemma keys_perm {V : Type} (o : JS.obj V) : Permutation (JS.keys o) (map fst o).
Proof. unfold JS.keys. apply Permutation_map, for_in_perm. Qed.

(** ** Grouping by module *)

Lemma remaining_put_own (o : JS.obj (list question)) (k : string)
  (v b : list question) :
  JS.get_own o k = Some b ->
  exists pre post,
    remaining o = pre ++ b ++ post /\ remaining (JS.put o k v) = pre ++ v ++ post.
Proof.
  intros Hb. destruct (put_own o k v b Hb) as [o1 [o2 [-> ->]]].
  exists (remaining o1), (remaining o2). unfold remaining.
  rewrite !map_app, !concat_app. simpl. now split.
Qed.

Lemma remaining_put_fresh (o : JS.obj (list question)) (k : string)
  (v : list question) :
  JS.get_own o k = None -> remaining (JS.put o k v) = remaining o ++ v.
Proof.
  intros Hb. rewrite (put_fresh o k v Hb). unfold remaining.
  rewrite map_app, concat_app. simpl. now rewrite app_nil_r.
Qed.

Lemma names_put_own {V : Type} (o : JS.obj V) (k : string) (v b : V) :
  JS.get_own o k = Some b -> map fst (JS.put o k v) = map fst o.
Proof.
  intros Hb. destruct (put_own o k v b Hb) as [o1 [o2 [-> ->]]].
  now rewrite !map_app.
Qed.

Lemma well_grouped_put (o : JS.obj (list question)) (k : string)
  (v : list question) :
  well_grouped o -> v <> [] -> well_grouped (JS.put o k v).
Proof.
  intros [Hnd Hne] Hv. split.
  - destruct (JS.get_own o k) as [b|] eqn:Hb.
    + now rewrite (names_put_own o k v b Hb).
    + rewrite (put_fresh o k v Hb), map_app. simpl.
      apply NoDup_app; [exact Hnd | repeat constructor; intros [] | ].
      intros x Hx [<- | []]. now apply get_own_None in Hb.
  - intros k' b'. destruct (String.eqb k k') eqn:Hk.
    + apply String.eqb_eq in Hk. subst k'. rewrite get_own_put_same.
      now intros [= <-].
    + apply String.eqb_neq in Hk. rewrite get_own_put_other by exact Hk.
      apply Hne.
Qed.

(** One step of [reduce] files the question under its module. *)
Lemma group_step_Some (o o' : JS.obj (list question)) (q : question) :
  group_step (Some o) q = Some o' ->
  Permutation (remaining o') (remaining o ++ [q])
  /\ (well_grouped o -> well_grouped o').
Proof.
  unfold group_step, JS.get.
  destruct (JS.get_own o (module q)) as [bucket|] eqn:Hb.
  - intros [= <-]. split.
    + destruct (remaining_put_own o (module q) (bucket ++ [q]) bucket Hb)
        as [pre [post [-> ->]]].
      rewrite <- !app_assoc. apply Permutation_app_head, Permutation_app_head.
      simpl. apply Permutation_cons_append.
    + intros Hwg. apply well_grouped_put; [exact Hwg|]. now destruct bucket.
  - destruct (JS.inherited (module q)); [discriminate|]. intros [= <-]. split.
    + now rewrite (remaining_put_fresh o (module q) [q] Hb).
    + intros Hwg. apply well_grouped_put; [exact Hwg | discriminate].
Qed.

Lemma group_step_None (l : list question) :
  fold_left group_step l None = None.
Proof. induction l as [|q l IH]; simpl; [reflexivity | exact IH]. Qed.

Lemma group_fold_Some (l : list question) (o o' : JS.obj (list question)) :
  fold_left group_step l (Some o) = Some o' ->
  Permutation (remaining o') (remaining o ++ l)
  /\ (well_grouped o -> well_grouped o').
Proof.
  revert o. induction l as [|q l IH]; intros o; cbn [fold_left].
  - intros [= <-]. rewrite app_nil_r. now split.
  - destruct (group_step (Some o) q) as [o1|] eqn:Hstep.
    + intros Hfold. destruct (group_step_Some o o1 q Hstep) as [Hp Hw].
      destruct (IH o1 Hfold) as [Hp' Hw']. split; [|tauto].
      rewrite Hp', Hp, <- app_assoc. reflexivity.
    + rewrite group_step_None. discriminate.
Qed.

(** Grouping goes through unless a module is called like something every
    object inherits. *)
Lemma group_fold_total (l : list question) (o : JS.obj (list question)) :
  (forall q, In q l -> JS.inherited (module q) = false) ->
  exists o', fold_left group_step l (Some o) = Some o'.
Proof.
  revert o. induction l as [|q l IH]; intros o Hl; simpl.
  - now exists o.
  - assert (Hq : JS.inherited (module q) = false) by (apply Hl; now left).
    unfold JS.get. destruct (JS.get_own o (module q)) as [bucket|].
    + apply IH. intros q' Hq'. apply Hl. now right.
    + rewrite Hq. apply IH. intros q' Hq'. apply Hl. now right.
Qed.

Lemma group_by_module_consistent (available : list question)
  (buckets : JS.obj (list question)) :
  group_by_module available = Some buckets ->
  consistent available
    {| questionsByModule := buckets; moduleKeys := JS.keys buckets;
       selected := []; count := 0; draws := 0 |}.
Proof.
  intros Hg. destruct (group_fold_Some available [] buckets Hg) as [Hp Hw].
  destruct Hw as [Hnd Hne]; [split; [constructor | discriminate]|].
  constructor; simpl.
  - exact Hp.
  - reflexivity.
  - exact Hnd.
  - intros k. split.
    + intros Hin. apply (Permutation_in k (keys_perm buckets)) in Hin.
      destruct (JS.get_own buckets k) as [b|] eqn:Hb.
      * exists b. split; [reflexivity | now apply (Hne k)].
      * now apply get_own_None in Hb.
    + intros [b [Hb _]].
      apply (Permutation_in k (Permutation_sym (keys_perm buckets))).
      destruct (in_dec string_dec k (map fst buckets)) as [H|H]; [exact H|].
      apply get_own_None in H. congruence.
  - apply (Permutation_NoDup (Permutation_sym (keys_perm buckets))). exact Hnd.
Qed.

(** ** The rotation over the modules *)

Lemma splice1_cases {A : Type} (i : nat) (l : list A) :
  (exists q l1 l2, l = l1 ++ q :: l2 /\ JS.splice1 i l = (Some q, l1 ++ l2))
  \/ JS.splice1 i l = (None, l).
Proof.
  destruct (Nat.lt_ge_cases i (List.length l)) as [Hlt | Hge].
  - left. now apply splice1_in_bounds.
  - right. now apply splice1_out_of_bounds.
Qed.

Lemma remaining_nonempty (o : JS.obj (list question)) :
  remaining o <> [] -> exists k b, In (k, b) o /\ b <> [].
Proof.
  induction o as [|[k b] o IH]; unfold remaining; simpl; [congruence|].
  destruct b as [|q b].
  - simpl. intros H. destruct (IH H) as [k' [b' [Hin Hb]]].
    exists k', b'. split; [now right | exact Hb].
  - intros _. exists k, (q :: b). split; [now left | discriminate].
Qed.

Lemma lt_num_wanted (c : nat) (num : JS.number) :
  JS.lt_num c num = (c <? wanted num)%nat.
Proof.
  destruct num as [|z]; simpl; [reflexivity|].
  destruct (Z.ltb_spec (Z.of_nat c) z), (Nat.ltb_spec c (Z.to_nat z));
    try reflexivity; lia.
Qed.

Lemma ge_num_wanted (c : nat) (num : JS.number) :
  num <> JS.NaN -> JS.ge_num c num = (wanted num <=? c)%nat.
Proof.
  destruct num as [|z]; simpl; [congruence|]. intros _.
  destruct (Z.leb_spec z (Z.of_nat c)), (Nat.leb_spec (Z.to_nat z) c);
    try reflexivity; lia.
Qed.

Section Rotation.

Variable random : nat -> nat.
Variable num : JS.number.

(** A draw moves at most one question from a bucket to the selection. *)
Lemma draw_permutes (mod_ : string) (st st' : rotation) :
  draw random mod_ st = Some st' ->
  Permutation (selected st' ++ remaining (questionsByModule st'))
              (selected st ++ remaining (questionsByModule st)).
Proof.
  unfold draw. destruct (JS.get_own (questionsByModule st) mod_) as [b|] eqn:Hb;
    [|discriminate].
  destruct (splice1_cases (JS.rand_index (random (draws st)) (List.length b)) b)
    as [[q [l1 [l2 [Hl Hs]]]] | Hs]; rewrite Hs; intros [= <-]; simpl.
  - destruct (remaining_put_own (questionsByModule st) mod_ (l1 ++ l2) b Hb)
      as [pre [post [-> ->]]].
    subst b. rewrite <- !app_assoc. apply Permutation_app_head. simpl.
    rewrite (app_assoc pre l1 (l2 ++ post)), (app_assoc pre l1 (q :: l2 ++ post)).
    apply Permutation_middle.
  - destruct (remaining_put_own (questionsByModule st) mod_ b b Hb)
      as [pre [post [-> ->]]].
    reflexivity.
Qed.

(** A draw from a bucket that is in the rotation gives one question and
    keeps the variables consistent. *)
Lemma draw_consistent (available : list question) (mod_ : string) (st : rotation) :
  consistent available st ->
  In mod_ (moduleKeys st) ->
  exists st',
    draw random mod_ st = Some st'
    /\ consistent available st'
    /\ count st' = S (count st).
Proof.
  intros [Hperm Hcount Hnd Hkeys Hknd] Hin.
  destruct (proj1 (Hkeys mod_) Hin) as [b [Hb Hne]].
  assert (Hlt : JS.rand_index (random (draws st)) (List.length b) < List.length b).
  { apply rand_index_lt. destruct b; [congruence | simpl; lia]. }
  destruct (splice1_in_bounds _ b Hlt) as [q [l1 [l2 [Hl Hs]]]].
  assert (Hdraw : exists st', draw random mod_ st = Some st').
  { unfold draw. rewrite Hb, Hs. eexists. reflexivity. }
  destruct Hdraw as [st' Hdraw]. exists st'. split; [exact Hdraw|].
  pose proof (draw_permutes mod_ st st' Hdraw) as Hp.
  unfold draw in Hdraw. rewrite Hb, Hs in Hdraw. injection Hdraw as <-.
  split; [|reflexivity]. simpl in Hp. constructor; simpl.
  - now rewrite Hp.
  - rewrite length_app. simpl. lia.
  - now rewrite (names_put_own _ mod_ (l1 ++ l2) b Hb).
  - destruct (l1 ++ l2) as [|r rest] eqn:Hrest; simpl.
    + destruct (splice_indexOf_found (moduleKeys st) mod_ Hin)
        as [k1 [k2 [Hk [Hnot Hsp]]]].
      rewrite Hsp. rewrite Hk in Hknd.
      pose proof (NoDup_remove_2 _ _ _ Hknd) as Hgone.
      intros k. split.
      * intros Hk12.
        assert (Hne' : mod_ <> k) by (intros ->; contradiction).
        rewrite get_own_put_other by exact Hne'. apply Hkeys. rewrite Hk.
        apply in_app_iff in Hk12. apply in_app_iff. simpl. tauto.
      * intros [b' [Hb' Hne']].
        destruct (string_dec mod_ k) as [<- | Hmk].
        -- rewrite get_own_put_same in Hb'. congruence.
        -- rewrite get_own_put_other in Hb' by exact Hmk.
           assert (Hink : In k (moduleKeys st)) by (apply Hkeys; eauto).
           rewrite Hk in Hink. apply in_app_iff in Hink. apply in_app_iff.
           destruct Hink as [H | [H | H]]; [now left | congruence | now right].
    + intros k. destruct (string_dec mod_ k) as [<- | Hmk].
      * rewrite get_own_put_same. split; [|intros _; exact Hin].
        intros _. exists (r :: rest). split; [reflexivity | discriminate].
      * rewrite get_own_put_other by exact Hmk. apply Hkeys.
  - destruct (l1 ++ l2) as [|r rest]; simpl; [|exact Hknd].
    destruct (splice_indexOf_found (moduleKeys st) mod_ Hin)
      as [k1 [k2 [Hk [_ Hsp]]]].
    rewrite Hsp. rewrite Hk in Hknd. exact (NoDup_remove_1 _ _ _ Hknd).
Qed.

End Rotation.

Section Passes.

Variable random : nat -> nat.
Variable num : JS.number.
Variable available : list question.

Lemma for_of_permutes (fuel i : nat) (st st' : rotation) :
  for_of random num fuel i st = Some st' ->
  Permutation (selected st' ++ remaining (questionsByModule st'))
              (selected st ++ remaining (questionsByModule st)).
Proof.
  revert i st. induction fuel as [|fuel IH]; intros i st; simpl.
  - now intros [= <-].
  - destruct (nth_error (moduleKeys st) i) as [mod_|]; [|now intros [= <-]].
    destruct (JS.ge_num (count st) num); [now intros [= <-]|].
    destruct (draw random mod_ st) as [st1|] eqn:Hdraw; [|discriminate].
    intros Hrest. rewrite (IH _ _ Hrest). exact (draw_permutes random mod_ st st1 Hdraw).
Qed.

(** The rest of a pass: it goes through, keeps the variables consistent,
    never takes the count past what was asked for, and draws at once when
    the iterator still has a key and the count is short. *)
Lemma for_of_consistent (fuel i : nat) (st : rotation) :
  consistent available st ->
  exists st',
    for_of random num fuel i st = Some st'
    /\ consistent available st'
    /\ count st <= count st'
    /\ (num <> JS.NaN -> count st <= wanted num -> count st' <= wanted num)
    /\ (0 < fuel -> i < List.length (moduleKeys st) ->
        JS.ge_num (count st) num = false -> count st < count st').
Proof.
  revert i st. induction fuel as [|fuel IH]; intros i st Hc; simpl.
  - exists st. split; [reflexivity|]. split; [exact Hc|]. split; [lia|].
    split; [tauto | lia].
  - destruct (nth_error (moduleKeys st) i) as [mod_|] eqn:Hnth.
    + destruct (JS.ge_num (count st) num) eqn:Hge.
      * exists st. split; [reflexivity|]. split; [exact Hc|]. split; [lia|].
        split; [tauto | discriminate].
      * destruct (draw_consistent random available mod_ st Hc (nth_error_In _ _ Hnth))
          as [st1 [Hdraw [Hc1 Hcount1]]].
        rewrite Hdraw.
        destruct (IH (S i) st1 Hc1) as [st' [Hfor [Hc' [Hle [Hbound _]]]]].
        exists st'. split; [exact Hfor|]. split; [exact Hc'|]. split; [lia|].
        split; [|lia]. intros Hnum Hw. apply (Hbound Hnum). rewrite Hcount1.
        rewrite (ge_num_wanted _ _ Hnum) in Hge.
        apply Nat.leb_gt in Hge. lia.
    + exists st. split; [reflexivity|]. split; [exact Hc|]. split; [lia|].
      split; [tauto|]. intros _ Hi. apply nth_error_None in Hnth. lia.
Qed.

(** While questions are left, some bucket is in the rotation. *)
Lemma keys_left (st : rotation) :
  consistent available st ->
  count st < List.length available ->
  0 < List.length (moduleKeys st).
Proof.
  intros [Hperm Hcount Hnd Hkeys _] Hlt.
  apply Permutation_length in Hperm. rewrite length_app in Hperm.
  assert (Hrem : remaining (questionsByModule st) <> []).
  { intros H. rewrite H in Hperm. simpl in Hperm. lia. }
  destruct (remaining_nonempty _ Hrem) as [k [b [Hin Hb]]].
  assert (Hk : In k (moduleKeys st)).
  { apply Hkeys. exists b. split; [now apply get_own_In | exact Hb]. }
  destruct (moduleKeys st); [destruct Hk | simpl; lia].
Qed.

Lemma count_le_available (st : rotation) :
  consistent available st -> count st <= List.length available.
Proof.
  intros [Hperm Hcount _ _ _]. apply Permutation_length in Hperm.
  rewrite length_app in Hperm. lia.
Qed.

(** Asked for no more than there is, the loop ends, with exactly what was
    asked for. *)
Lemma rotate_returns (fuel : nat) (st : rotation) :
  consistent available st ->
  0 < List.length available ->
  count st <= wanted num ->
  wanted num <= List.length available ->
  wanted num - count st < fuel ->
  exists st',
    rotate random num fuel available st = Rendered (selected st')
    /\ consistent available st'
    /\ count st' = wanted num.
Proof.
  revert st. induction fuel as [|fuel IH]; intros st Hc Hpos Hle Hfits Hfuel;
    [lia|].
  simpl. rewrite lt_num_wanted.
  destruct (Nat.ltb_spec (count st) (wanted num)) as [Hlt | Hge]; simpl.
  - apply Nat.ltb_lt in Hpos. rewrite Hpos.
    unfold pass.
    destruct (for_of_consistent (List.length (moduleKeys st)) 0 st Hc)
      as [st1 [Hfor [Hc1 [_ [Hbound Hprogress]]]]].
    rewrite Hfor.
    assert (Hkeys : 0 < List.length (moduleKeys st)) by (apply keys_left; [exact Hc | lia]).
    assert (Hnum : num <> JS.NaN) by (intros ->; simpl in Hlt; lia).
    assert (Hge : JS.ge_num (count st) num = false).
    { rewrite ge_num_wanted; [apply Nat.leb_gt; exact Hlt | exact Hnum]. }
    specialize (Hprogress Hkeys Hkeys Hge). specialize (Hbound Hnum Hle).
    apply Nat.ltb_lt in Hpos.
    apply (IH st1 Hc1 Hpos Hbound Hfits). lia.
  - exists st. split; [reflexivity|]. split; [exact Hc | lia].
Qed.

(** Asked for more than there is, the loop never ends. *)
Lemma rotate_spins (fuel : nat) (st : rotation) :
  consistent available st ->
  0 < List.length available ->
  List.length available < wanted num ->
  exists st',
    rotate random num fuel available st = Spinning (selected st')
    /\ consistent available st'.
Proof.
  revert st. induction fuel as [|fuel IH]; intros st Hc Hpos Hmore; simpl.
  - now exists st.
  - rewrite lt_num_wanted.
    pose proof (count_le_available st Hc) as Hcount.
    assert (Hlt : (count st <? wanted num)%nat = true) by (apply Nat.ltb_lt; lia).
    rewrite Hlt. pose proof Hpos as Hpos'. apply Nat.ltb_lt in Hpos'. rewrite Hpos'.
    simpl. unfold pass.
    destruct (for_of_consistent (List.length (moduleKeys st)) 0 st Hc)
      as [st1 [Hfor [Hc1 _]]].
    rewrite Hfor. now apply IH.
Qed.

(** Whatever the loop has selected, at its end or on the way, was among
    the candidates, each at most as often as it occurs there. *)
Lemma rotate_permutes (fuel : nat) (st : rotation) :
  match rotate random num fuel available st with
  | Rendered sel | Spinning sel =>
      exists rest,
        Permutation (sel ++ rest) (selected st ++ remaining (questionsByModule st))
  | _ => True
  end.
Proof.
  revert st. induction fuel as [|fuel IH]; intros st; simpl.
  - now exists (remaining (questionsByModule st)).
  - destruct (JS.lt_num (count st) num && (0 <? List.length available)%nat);
      [|now exists (remaining (questionsByModule st))].
    destruct (pass random num st) as [st1|] eqn:Hpass; [|exact I].
    specialize (IH st1).
    destruct (rotate random num fuel available st1) as [sel| | |sel];
      try exact I; destruct IH as [rest Hrest]; exists rest;
      rewrite Hrest; exact (for_of_permutes _ _ _ _ Hpass).
Qed.

End Passes.

Section Ends.

Variable random : nat -> nat.
Variable num : JS.number.

(** Once the loop has ended, more fuel changes nothing. *)
Lemma rotate_more_fuel (fuel extra : nat) (available sel : list question)
  (st : rotation) :
  rotate random num fuel available st = Rendered sel ->
  rotate random num (fuel + extra) available st = Rendered sel.
Proof.
  revert st. induction fuel as [|fuel IH]; intros st; simpl; [discriminate|].
  destruct (JS.lt_num (count st) num && (0 <? List.length available)%nat);
    [|tauto].
  destruct (pass random num st) as [st1|]; [apply IH | discriminate].
Qed.

Lemma length_splice_indexOf (l : list string) (x : string) :
  List.length (JS.splice_indexOf l x) <= List.length l.
Proof.
  unfold JS.splice_indexOf. destruct (JS.indexOf l x) as [i|].
  - destruct (splice1_cases i l) as [[q [l1 [l2 [Hl Hs]]]] | Hs]; rewrite Hs; simpl.
    + rewrite Hl, !length_app. simpl. lia.
    + lia.
  - induction l as [|a [|b l] IH]; simpl in *; lia.
Qed.

Lemma draw_keeps_keys_short (mod_ : string) (st st' : rotation) :
  draw random mod_ st = Some st' ->
  List.length (moduleKeys st') <= List.length (moduleKeys st).
Proof.
  unfold draw. destruct (JS.get_own (questionsByModule st) mod_) as [b|];
    [|discriminate].
  destruct (JS.splice1 _ b) as [question rest]. intros [= <-]. simpl.
  destruct (List.length rest =? 0)%nat; [apply length_splice_indexOf | lia].
Qed.

(** The fuel [pass] gives the [for] loop is enough: with more of it the
    loop ends in the same state. *)
Lemma for_of_fuel_enough (fuel extra i : nat) (st : rotation) :
  List.length (moduleKeys st) <= fuel + i ->
  for_of random num (fuel + extra) i st = for_of random num fuel i st.
Proof.
  revert i st. induction fuel as [|fuel IH]; intros i st Hlen.
  - simpl in Hlen. destruct extra as [|extra]; simpl; [reflexivity|].
    assert (Hnone : nth_error (moduleKeys st) i = None) by now apply nth_error_None.
    now rewrite Hnone.
  - simpl. destruct (nth_error (moduleKeys st) i) as [mod_|]; [|reflexivity].
    destruct (JS.ge_num (count st) num); [reflexivity|].
    destruct (draw random mod_ st) as [st1|] eqn:Hdraw; [|reflexivity].
    apply IH. apply draw_keeps_keys_short in Hdraw. lia.
Qed.

(** The random branch: what it returns is taken from the candidates, each
    at most as often as it occurs there, and it is as long as asked for or
    as the candidates allow. *)
Lemma fully_random_spec (fuel drawn : nat) (sel available : list question) :
  List.length available <= fuel ->
  exists rest,
    Permutation (fully_random random num fuel drawn sel available ++ rest)
                (sel ++ available)
    /\ List.length (fully_random random num fuel drawn sel available)
       = Nat.max (List.length sel)
           (Nat.min (wanted num) (List.length sel + List.length available)).
Proof.
  revert drawn sel available.
  induction fuel as [|fuel IH]; intros drawn sel available Hfuel; cbn [fully_random].
  - exists available. split; [reflexivity | lia].
  - rewrite lt_num_wanted.
    destruct (Nat.ltb_spec (List.length sel) (wanted num)) as [Hlt | Hge]; cbn [andb].
    + destruct (Nat.ltb_spec 0 (List.length available)) as [Hpos | Hzero].
      * destruct (splice1_in_bounds _ available
                    (rand_index_lt (random drawn) _ Hpos))
          as [q [l1 [l2 [Hl Hs]]]].
        rewrite Hs.
        assert (Hshort : List.length (l1 ++ l2) <= fuel).
        { rewrite Hl, length_app in Hfuel. simpl in Hfuel.
          rewrite length_app. lia. }
        destruct (IH (S drawn) (sel ++ [q]) (l1 ++ l2) Hshort) as [rest [Hp Hlen]].
        exists rest. split.
        -- rewrite Hp, Hl, <- app_assoc. apply Permutation_app_head. simpl.
           apply Permutation_middle.
        -- rewrite Hlen, Hl, !length_app. simpl. lia.
      * exists available. split; [reflexivity | lia].
    + exists available. split; [reflexivity | lia].
Qed.

(** The fuel [generateQuestions] gives the random loop is enough. *)
Lemma fully_random_fuel_enough (fuel extra drawn : nat)
  (sel available : list question) :
  List.length available <= fuel ->
  fully_random random num (fuel + extra) drawn sel available
  = fully_random random num fuel drawn sel available.
Proof.
  revert drawn sel available.
  induction fuel as [|fuel IH]; intros drawn sel available Hfuel.
  - destruct available; [|simpl in Hfuel; lia].
    destruct extra as [|extra]; cbn [fully_random Nat.add]; [reflexivity|].
    cbn [List.length Nat.ltb Nat.leb]. now rewrite andb_false_r.
  - cbn [fully_random Nat.add].
    destruct (JS.lt_num (List.length sel) num && (0 <? List.length available)%nat)
      eqn:Hguard; [|reflexivity].
    apply andb_prop in Hguard. destruct Hguard as [_ Hpos].
    apply Nat.ltb_lt in Hpos.
    destruct (splice1_in_bounds _ available (rand_index_lt (random drawn) _ Hpos))
      as [q [l1 [l2 [Hl Hs]]]].
    rewrite Hs. apply IH.
    rewrite Hl, length_app in Hfuel. simpl in Hfuel. rewrite length_app. lia.
Qed.

End Ends.

(** ** Candidates *)

Lemma candidates_not_done (modules : catalog) (done : JS.jsset)
  (moduleFilter paperFilter : string) (q : question) :
  In q (candidates modules done moduleFilter paperFilter) ->
  JS.has done (id q) = false /\ In q (getFlattenedQuestions modules).
Proof.
  unfold candidates, by_paper, by_module. intros Hin.
  assert (Hbase : In q (filter (fun q => negb (JS.has done (id q)))
                          (getFlattenedQuestions modules))).
  { destruct (String.eqb paperFilter "all");
      [|apply filter_In in Hin; destruct Hin as [Hin _]];
      (destruct (String.eqb moduleFilter "all");
       [|apply filter_In in Hin; destruct Hin as [Hin _]]); exact Hin. }
  apply filter_In in Hbase. destruct Hbase as [Hflat Hneg].
  split; [now apply negb_true_iff | exact Hflat].
Qed.

(** ** Selection *)

(** What both branches have in common, whenever they return. *)
Lemma selection_core (random : nat -> nat) (num : JS.number) (modules : catalog)
  (done : JS.jsset) (moduleFilter paperFilter : string) (modeRandom : bool) :
  let pool := candidates modules done moduleFilter paperFilter in
  (modeRandom = false -> moduleFilter = "all" ->
     pool = []
     \/ (wanted num <= List.length pool
         /\ (forall q, In q pool -> JS.inherited (module q) = false))) ->
  exists sel,
    (forall fuel, wanted num < fuel ->
       generateQuestions random num fuel (Some modules) done moduleFilter
         paperFilter modeRandom = Rendered sel)
    /\ List.length sel = Nat.min (wanted num) (List.length pool)
    /\ (exists rest, Permutation (sel ++ rest) pool).
Proof.
  intros pool Hbal. unfold generateQuestions. cbv beta iota zeta.
  change (candidates modules done moduleFilter paperFilter) with pool.
  clearbody pool.
  destruct (Nat.eqb_spec (List.length pool) 0) as [Hempty | Hsome].
  - exists []. split; [reflexivity|]. rewrite Hempty. split; [simpl; lia|].
    exists pool. reflexivity.
  - destruct (negb modeRandom && String.eqb moduleFilter "all") eqn:Hmode.
    + apply andb_prop in Hmode. destruct Hmode as [Hm Hf].
      apply negb_true_iff in Hm. apply String.eqb_eq in Hf.
      destruct (Hbal Hm Hf) as [Hnil | [Hfits Hnames]];
        [subst pool; simpl in Hsome; congruence|].
      destruct (group_fold_total pool [] Hnames) as [buckets Hg].
      change (group_by_module pool = Some buckets) in Hg.
      unfold homogeneous. rewrite Hg.
      pose proof (group_by_module_consistent pool buckets Hg) as Hc.
      destruct (rotate_returns random num pool (S (wanted num)) _ Hc)
        as [st' [Hrot [Hc' Hcount]]]; simpl; try lia.
      exists (selected st'). split; [|split].
      * intros fuel Hfuel.
        replace fuel with (S (wanted num) + (fuel - S (wanted num))) by lia.
        now apply rotate_more_fuel.
      * rewrite <- (count_selected _ _ Hc'), Hcount. lia.
      * exists (remaining (questionsByModule st')). exact (drawn_or_left _ _ Hc').
    + destruct (fully_random_spec random num (List.length pool) 0 [] pool (le_n _))
        as [rest [Hp Hlen]].
      exists (fully_random random num (List.length pool) 0 [] pool).
      split; [reflexivity|]. split; [rewrite Hlen; simpl; lia|].
      exists rest. exact Hp.
Qed.

(** C2, the cases the claim misses: a year listed twice gives two
    candidates with one id, and both are drawn; asked for three of two
    candidates, the homogeneous branch never returns; with a module called
    "constructor" it throws. *)
Lemma selection_counterexamples :
  (generateQuestions lowest (JS.Int 2) 3 (Some twice_listed) [] "all" "all" true
   = Rendered [ mkQuestion "Chem_P1_2020" "Chem" "P1" "2020";
                mkQuestion "Chem_P1_2020" "Chem" "P1" "2020" ]
   /\ ~ NoDup ["Chem_P1_2020"; "Chem_P1_2020"])
  /\ (forall fuel sel,
        generateQuestions lowest (JS.Int 3) fuel (Some chem_bio) [] "all" "all" false
        <> Rendered sel)
  /\ generateQuestions lowest (JS.Int 1) 2 (Some odd_name) [] "all" "all" false
     = TypeError.
Proof.
  split; [split; [reflexivity|]|split; [|reflexivity]].
  - intros Hnd. inversion Hnd as [|? ? Hnot _]. apply Hnot. now left.
  - intros fuel sel.
    assert (Hloop : forall n,
      rotate lowest (JS.Int 3) n (getFlattenedQuestions chem_bio)
        {| questionsByModule := [("Chem", []); ("Bio", [])]; moduleKeys := [];
           selected := getFlattenedQuestions chem_bio; count := 2; draws := 2 |}
      <> Rendered sel).
    { induction n as [|n IH]; [discriminate | exact IH]. }
    destruct fuel as [|[|fuel]]; [discriminate | discriminate | exact (Hloop fuel)].
Qed.

(** C2, as amended.  The selection returns whenever the random branch runs,
    and on the homogeneous branch when the pool is empty, or no more is asked
    for than there are candidates and no module is called like an inherited
    property.  It then renders exactly min(N, |pool|) records (N counted as
    0 when it is negative or not a number), each taken from the pool and
    none taken more often than it occurs there, so without two equal ids
    when the pool has none; for N <= 0 or an empty pool it renders
    nothing. *)
Theorem selection_without_replacement
  (random : nat -> nat) (num : JS.number) (modules : catalog) (done : JS.jsset)
  (moduleFilter paperFilter : string) (modeRandom : bool) :
  let pool := candidates modules done moduleFilter paperFilter in
  (modeRandom = false -> moduleFilter = "all" ->
     pool = []
     \/ (wanted num <= List.length pool
         /\ (forall q, In q pool -> JS.inherited (module q) = false))) ->
  exists sel,
    (forall fuel, wanted num < fuel ->
       generateQuestions random num fuel (Some modules) done moduleFilter
         paperFilter modeRandom = Rendered sel)
    /\ List.length sel = Nat.min (wanted num) (List.length pool)
    /\ (exists rest, Permutation (sel ++ rest) pool)
    /\ (forall q, In q sel -> In q pool)
    /\ (NoDup (map id pool) -> NoDup (map id sel))
    /\ (wanted num = 0 \/ pool = [] -> sel = []).
Proof.
  intros pool Hbal.
  destruct (selection_core random num modules done moduleFilter paperFilter
              modeRandom Hbal) as [sel [Hrun [Hlen [rest Hp]]]].
  fold pool in Hlen, Hp.
  exists sel. split; [exact Hrun|]. split; [exact Hlen|].
  split; [now exists rest|]. split; [|split].
  - intros q Hq. apply (Permutation_in q Hp). apply in_or_app. now left.
  - intros Hnd.
    apply (Permutation_NoDup (Permutation_sym (Permutation_map id Hp))) in Hnd.
    rewrite map_app in Hnd. exact (NoDup_app_remove_r _ _ Hnd).
  - intros Hnone.
    assert (Hzero : List.length sel = 0).
    { destruct Hnone as [Hw | Hpool]; [rewrite Hlen, Hw; reflexivity|].
      rewrite Hlen, Hpool. simpl. lia. }
    now destruct sel.
Qed.

Lemma selection_without_replacement_witness :
  (exists sel,
      generateQuestions lowest (JS.Int 2) 3 (Some chem_bio) [] "all" "all" false
      = Rendered sel
      /\ List.length sel = 2
      /\ NoDup (map id sel))
  /\ generateQuestions lowest (JS.Int 5) 6 (Some chem_bio)
       ["Chem_P1_2020"; "Bio_P1_2019"] "all" "all" false
     = Rendered [].
Proof.
  split.
  - assert (Hbal : false = false -> "all" = "all" ->
              candidates chem_bio [] "all" "all" = []
              \/ (wanted (JS.Int 2) <= List.length (candidates chem_bio [] "all" "all")
                  /\ (forall q, In q (candidates chem_bio [] "all" "all") ->
                                JS.inherited (module q) = false))).
    { intros _ _. right. split; [vm_compute; lia|].
      intros q [<- | [<- | []]]; reflexivity. }
    destruct (selection_without_replacement lowest (JS.Int 2) chem_bio [] "all"
                "all" false Hbal) as [sel [Hrun [Hlen [_ [_ [Hnd _]]]]]].
    exists sel. split; [apply Hrun; vm_compute; lia|]. split; [exact Hlen|].
    apply Hnd. vm_compute. repeat constructor; simpl; intuition discriminate.
  - assert (Hbal : false = false -> "all" = "all" ->
              candidates chem_bio ["Chem_P1_2020"; "Bio_P1_2019"] "all" "all" = []
              \/ (wanted (JS.Int 5)
                  <= List.length (candidates chem_bio ["Chem_P1_2020"; "Bio_P1_2019"]
                                    "all" "all")
                  /\ (forall q,
                        In q (candidates chem_bio ["Chem_P1_2020"; "Bio_P1_2019"]
                                "all" "all") ->
                        JS.inherited (module q) = false))).
    { intros _ _. left. reflexivity. }
    destruct (selection_without_replacement lowest (JS.Int 5) chem_bio
                ["Chem_P1_2020"; "Bio_P1_2019"] "all" "all" false Hbal)
      as [sel [Hrun [_ [_ [_ [_ Hnone]]]]]].
    rewrite (Hrun 6) by (vm_compute; lia).
    rewrite (Hnone (or_intror eq_refl)). reflexivity.
Defined.

(** C9. Whatever the selection has picked, when it returns or while it is
    still running, is a candidate, and no candidate has its id in the master
    set the selection was called with. *)
Theorem completed_never_selected
  (random : nat -> nat) (num : JS.number) (fuel : nat)
  (allQuestionsData : option catalog) (done : JS.jsset)
  (moduleFilter paperFilter : string) (modeRandom : bool) :
  match generateQuestions random num fuel allQuestionsData done moduleFilter
          paperFilter modeRandom with
  | Rendered sel | Spinning sel =>
      forall q, In q sel -> JS.has done (id q) = false /\ ~ In (id q) done
  | NotLoaded | TypeError => True
  end.
Proof.
  destruct allQuestionsData as [modules|]; [|exact I].
  unfold generateQuestions. cbv beta iota zeta.
  set (pool := candidates modules done moduleFilter paperFilter).
  assert (Hpool : forall q, In q pool -> JS.has done (id q) = false /\ ~ In (id q) done).
  { intros q Hq. apply candidates_not_done in Hq. destruct Hq as [Hq _].
    split; [exact Hq | now apply has_false_iff]. }
  clearbody pool.
  destruct (List.length pool =? 0)%nat; [intros q []|].
  destruct (negb modeRandom && String.eqb moduleFilter "all").
  - unfold homogeneous.
    destruct (group_by_module pool) as [buckets|] eqn:Hg; [|exact I].
    destruct (group_fold_Some pool [] buckets Hg) as [Hp _].
    pose proof (rotate_permutes random num pool fuel
                  {| questionsByModule := buckets; moduleKeys := JS.keys buckets;
                     selected := []; count := 0; draws := 0 |}) as Hrot.
    destruct (rotate random num fuel pool _) as [sel| | |sel]; try exact I;
      destruct Hrot as [rest Hrest]; intros q Hq; apply Hpool;
      apply (Permutation_in q Hp); apply (Permutation_in q Hrest);
      apply in_or_app; now left.
  - destruct (fully_random_spec random num (List.length pool) 0 [] pool (le_n _))
      as [rest [Hp _]].
    intros q Hq. apply Hpool. apply (Permutation_in q Hp). apply in_or_app. now left.
Qed.

(** C3, as the code has it.  On the homogeneous branch, asked for more
    questions than there are candidates, the [while] loop never ends:
    however long it runs, it is still running.  [available] is not shortened
    in that branch, so its guard stays true once every bucket is empty. *)
Theorem homogeneous_never_returns
  (random : nat -> nat) (z : Z) (fuel : nat) (modules : catalog) (done : JS.jsset)
  (paperFilter : string) :
  let pool := candidates modules done "all" paperFilter in
  pool <> [] ->
  (forall q, In q pool -> JS.inherited (module q) = false) ->
  (Z.of_nat (List.length pool) < z)%Z ->
  exists sel,
    generateQuestions random (JS.Int z) fuel (Some modules) done "all"
      paperFilter false = Spinning sel.
Proof.
  intros pool Hne Hnames Hmore. unfold generateQuestions. cbv beta iota zeta.
  change (candidates modules done "all" paperFilter) with pool. clearbody pool.
  destruct (Nat.eqb_spec (List.length pool) 0) as [Hempty | Hsome];
    [destruct pool; [congruence | discriminate]|].
  change (negb false && String.eqb "all" "all") with true. cbv iota.
  destruct (group_fold_total pool [] Hnames) as [buckets Hg].
  change (group_by_module pool = Some buckets) in Hg.
  unfold homogeneous. rewrite Hg.
  pose proof (group_by_module_consistent pool buckets Hg) as Hc.
  destruct (rotate_spins random (JS.Int z) pool fuel _ Hc) as [st' [Hrot _]];
    [lia | simpl; lia |].
  now exists (selected st').
Qed.

Lemma homogeneous_never_returns_witness :
  exists sel,
    generateQuestions lowest (JS.Int 3) 1000 (Some chem_bio) [] "all" "all" false
    = Spinning sel.
Proof.
  apply (homogeneous_never_returns lowest 3 1000 chem_bio [] "all").
  - discriminate.
  - intros q [<- | [<- | []]]; reflexivity.
  - vm_compute. reflexivity.
Defined.

(** ** Fairness of the rotation *)

Ltac pick_index :=
  match goal with
  | |- context [JS.rand_index ?r ?n] =>
      let H := fresh "H" in
      assert (H : JS.rand_index r n < n) by (apply rand_index_lt; cbn; lia);
      destruct (JS.rand_index r n) as [|[|[|?]]];
      try (exfalso; cbn in H; lia); clear H
  end.

(** C5, as the code has it.  With two, one, three and three questions in
    Maths, Earth, Bio and Chem, whatever [Math.random] gives: the first pass
    draws from Maths, Earth and Chem, the second from Maths and Chem.  Each
    time a bucket runs empty its key is spliced out of the array the [for]
    loop is walking, and the key after it is passed over.  After two
    complete passes Chem has given two questions and Bio, which still holds
    all three of its own, none; asked for five, that is the result. *)
Theorem rotation_passes_over_the_next_bucket (random : nat -> nat) :
  exists buckets,
    group_by_module (candidates lopsided [] "all" "all") = Some buckets
    /\ JS.keys buckets = ["Maths"; "Earth"; "Bio"; "Chem"]
    /\ option_map tally
         (pass random (JS.Int 6)
            {| questionsByModule := buckets; moduleKeys := JS.keys buckets;
               selected := []; count := 0; draws := 0 |})
       = Some (["Maths"; "Earth"; "Chem"], ["Maths"; "Bio"; "Chem"],
               [("Maths", 1); ("Earth", 0); ("Bio", 3); ("Chem", 2)])
    /\ match pass random (JS.Int 6)
               {| questionsByModule := buckets; moduleKeys := JS.keys buckets;
                  selected := []; count := 0; draws := 0 |} with
       | Some st1 => option_map tally (pass random (JS.Int 6) st1)
       | None => None
       end
       = Some (["Maths"; "Earth"; "Chem"; "Maths"; "Chem"], ["Bio"; "Chem"],
               [("Maths", 0); ("Earth", 0); ("Bio", 3); ("Chem", 1)])
    /\ exists sel,
         generateQuestions random (JS.Int 5) 3 (Some lopsided) [] "all" "all" false
         = Rendered sel
         /\ map module sel = ["Maths"; "Earth"; "Chem"; "Maths"; "Chem"].
Proof.
  eexists. split; [vm_compute; reflexivity|]. split; [reflexivity|].
  cbn. repeat (pick_index; cbn).
  all: split; [reflexivity|]; split; [reflexivity|]; eexists; split; reflexivity.
Qed.

(** The instance the spec names does come out even: three buckets of two and
    four questions asked for give two from the first bucket and one from
    each of the others, whatever [Math.random] gives. *)
Lemma three_pairs_four (random : nat -> nat) :
  exists sel,
    generateQuestions random (JS.Int 4) 3 (Some three_pairs) [] "all" "all" false
    = Rendered sel
    /\ map module sel = ["Maths"; "Bio"; "Chem"; "Maths"].
Proof.
  cbn. repeat (pick_index; cbn).
  all: eexists; split; reflexivity.
Qed.

(** * Further properties of the page *)

(** ** Sets without repetition *)

Lemma NoDup_add (x : string) (s : JS.jsset) : NoDup s -> NoDup (JS.add x s).
Proof.
  intros Hnd. unfold JS.add. destruct (JS.has s x) eqn:Hx; [exact Hnd|].
  apply has_false_iff in Hx.
  apply NoDup_app; [exact Hnd | repeat constructor; intros [] |].
  intros y Hy [<- | []]. contradiction.
Qed.

Lemma NoDup_delete (x : string) (s : JS.jsset) : NoDup s -> NoDup (JS.delete x s).
Proof. intros Hnd. unfold JS.delete. now apply NoDup_filter. Qed.

Lemma NoDup_forEach_add (delta s : JS.jsset) :
  NoDup s -> NoDup (JS.forEach delta JS.add s).
Proof.
  unfold JS.forEach. revert s. induction delta as [|d delta IH]; intros s Hnd;
    simpl; [exact Hnd|].
  apply IH. now apply NoDup_add.
Qed.

Lemma NoDup_forEach_delete (delta s : JS.jsset) :
  NoDup s -> NoDup (JS.forEach delta JS.delete s).
Proof.
  intros Hnd. rewrite forEach_delete_filter. now apply NoDup_filter.
Qed.

Lemma new_Set_forEach (items : list string) :
  JS.new_Set items = JS.forEach items JS.add [].
Proof. reflexivity. Qed.

(** Adding ids that are new and distinct appends them in order. *)
Lemma forEach_add_fresh (delta s : JS.jsset) :
  NoDup (s ++ delta) -> JS.forEach delta JS.add s = s ++ delta.
Proof.
  unfold JS.forEach. revert s. induction delta as [|d delta IH]; intros s Hnd;
    simpl; [now rewrite app_nil_r|].
  assert (Hd : JS.has s d = false).
  { apply has_false_iff. intros Hin.
    apply NoDup_remove_2 in Hnd. apply Hnd. apply in_or_app. now left. }
  unfold JS.add at 2. rewrite Hd.
  rewrite IH; rewrite <- app_assoc; [reflexivity | exact Hnd].
Qed.

(** The prefix of an API error never hides or makes up a "Not Found". *)
Lemma includes_api_error (m : string) :
  JS.includes ("GitHub API Error: " ++ m)%string "Not Found"
  = JS.includes m "Not Found".
Proof. reflexivity. Qed.

(** ** Loading, continued *)



(** X2. Whatever GitHub answers, a load leaves the session set as it was and
    sends at most the one GET: ticks made before a load survive it. *)
Theorem load_keeps_session
  (repo pat : string) (reply : transport fileData) (st : store) :
  sessionDoneList (after (loadProgressFromGithub repo pat reply st))
  = sessionDoneList st
  /\ (traffic (loadProgressFromGithub repo pat reply st) = []
      \/ traffic (loadProgressFromGithub repo pat reply st) = [GET]).
Proof.
  unfold loadProgressFromGithub, githubApiFetch, load_catch, sends.
  destruct (falsy repo || falsy pat); simpl.
  - split; [reflexivity | now left].
  - destruct reply as [m | m s | data]; simpl.
    + destruct (JS.includes m "Not Found"); simpl; split; auto.
    + destruct (JS.includes _ "Not Found"); simpl; split; auto.
    + destruct (doneItems data) as [items | m]; simpl; [split; auto|].
      destruct (JS.includes m "Not Found"); simpl; split; auto.
Qed.

(** X3. When the GET is answered but the content cannot be decoded, the SHA
    of the answer has already been stored: the load reports an error and
    keeps the master set, yet the store now carries the SHA of a file it did
    not load. *)
Theorem load_undecodable_keeps_master_takes_sha
  (repo pat : string) (data : fileData) (message : string) (st : store) :
  sends repo pat = true ->
  doneItems data = Thrown message ->
  JS.includes message "Not Found" = false ->
  let r := loadProgressFromGithub repo pat (Replied data) st in
  masterDoneList (after r) = masterDoneList st
  /\ sessionDoneList (after r) = sessionDoneList st
  /\ githubFileSha (after r) = Some (sha data)
  /\ shown r = LoadError message
  /\ isError (shown r) = true.
Proof.
  intros Hsends Hitems Hnf r. subst r.
  unfold loadProgressFromGithub, githubApiFetch, load_catch.
  unfold sends in *. apply negb_true_iff in Hsends.
  rewrite Hsends, Hitems. simpl. rewrite Hnf. simpl. repeat split.
Qed.

Lemma load_undecodable_keeps_master_takes_sha_witness :
  githubFileSha
    (after (loadProgressFromGithub some_repo some_pat
              (Replied (mkFileData "def" (Thrown "Unexpected end of JSON input")))
              fresh_tick))
  = Some "def"
  /\ masterDoneList
       (after (loadProgressFromGithub some_repo some_pat
                 (Replied (mkFileData "def" (Thrown "Unexpected end of JSON input")))
                 fresh_tick))
     = ["Chem_P1_2020"].
Proof.
  destruct (load_undecodable_keeps_master_takes_sha some_repo some_pat
              (mkFileData "def" (Thrown "Unexpected end of JSON input"))
              "Unexpected end of JSON input" fresh_tick eq_refl eq_refl eq_refl)
    as [Hm [_ [Hsha _]]].
  split; [exact Hsha | exact Hm].
Defined.

(** X4. A response that is not ok counts as a missing file exactly when the
    error document's message (the status text when the document has none)
    contains "Not Found": then the master set is emptied, otherwise the store
    is left as it was. *)
Theorem load_not_ok_classified
  (repo pat : string) (m : option string) (statusText : string) (st : store) :
  sends repo pat = true ->
  let r := loadProgressFromGithub repo pat (NotOk m statusText) st in
  (JS.includes (message_or m statusText) "Not Found" = true ->
     shown r = NotFoundInRepo /\ masterDoneList (after r) = [])
  /\ (JS.includes (message_or m statusText) "Not Found" = false ->
        isError (shown r) = true /\ after r = st).
Proof.
  intros Hsends r. subst r.
  unfold loadProgressFromGithub, githubApiFetch, load_catch.
  unfold sends in *. apply negb_true_iff in Hsends. rewrite Hsends.
  cbv iota. rewrite includes_api_error.
  split; intros Hnf; rewrite Hnf; simpl; split; reflexivity.
Qed.

Lemma load_not_ok_classified_witness :
  shown (loadProgressFromGithub some_repo some_pat
           (NotOk None "Branch Not Found") fresh_tick)
  = NotFoundInRepo
  /\ isError (shown (loadProgressFromGithub some_repo some_pat
                       (NotOk (Some "Bad credentials") "Unauthorized") fresh_tick))
     = true.
Proof.
  destruct (load_not_ok_classified some_repo some_pat None "Branch Not Found"
              fresh_tick eq_refl) as [Hnf _].
  destruct (load_not_ok_classified some_repo some_pat (Some "Bad credentials")
              "Unauthorized" fresh_tick eq_refl) as [_ Hother].
  split; [exact (proj1 (Hnf eq_refl)) | exact (proj1 (Hother eq_refl))].
Defined.

(** ** Saving, continued *)

(** X5. With the repository or the token left empty nothing is sent: a load
    leaves the store as it was, and a save of a non-empty session set that
    gets past [btoa] fails before its GET, keeps the session set and the
    SHA, and rolls the master set back. *)
Theorem no_credentials_no_request (repo pat : string) :
  sends repo pat = false ->
  (forall reply st,
      loadProgressFromGithub repo pat reply st
      = {| after := st;
           shown := LoadError "GitHub Repo and Personal Access Token must be provided.";
           traffic := [] |})
  /\ (forall get_reply put_reply rerender st,
        sessionDoneList st <> [] ->
        encodes st = true ->
        let r := saveProgressToGithub repo pat get_reply put_reply rerender st in
        traffic r = []
        /\ shown r = SaveError "GitHub Repo and Personal Access Token must be provided."
        /\ sessionDoneList (after r) = sessionDoneList st
        /\ githubFileSha (after r) = githubFileSha st
        /\ masterDoneList (after r)
           = filter (fun y => negb (JS.has (sessionDoneList st) y)) (masterDoneList st)).
Proof.
  intros Hsends. unfold sends in Hsends. apply negb_false_iff in Hsends. split.
  - intros reply st. unfold loadProgressFromGithub, githubApiFetch, sends.
    rewrite Hsends. reflexivity.
  - intros get_reply put_reply rerender st Hne Henc r. subst r.
    rewrite (save_encoded _ _ _ _ _ st Hne Henc).
    unfold send_save, latest_sha, githubApiFetch, sends.
    rewrite Hsends. cbn -[JS.forEach]. rewrite merge_then_rollback.
    repeat split.
Qed.

Lemma no_credentials_no_request_witness :
  traffic (saveProgressToGithub EmptyString some_pat (found "abc" [])
             (Replied "def") (Returned tt) fresh_tick) = [].
Proof.
  destruct (no_credentials_no_request EmptyString some_pat eq_refl) as [_ Hsave].
  assert (Hne : sessionDoneList fresh_tick <> []) by discriminate.
  exact (proj1 (Hsave (found "abc" []) (Replied "def") (Returned tt) fresh_tick
                  Hne eq_refl)).
Defined.

(** X6. What a save sends.  When [btoa] returns, the save sends its GET and
    then PUTs the master list as it is in memory with the new ids of the
    session set appended, guarded by the SHA the GET just returned, or by no
    SHA when the GET said "Not Found"; the SHA held before and the content of
    the file on GitHub play no part, and when the GET fails otherwise there
    is no PUT.  When [btoa] throws (an id holds a character above U+00FF)
    nothing is sent, the "Saving..." message stays, and the store keeps the
    merged master list and the session set. *)
Theorem save_sends_merged_list
  (repo pat : string) (get_reply : transport fileData)
  (put_reply : transport string) (rerender : completion unit) (st : store) :
  sends repo pat = true ->
  sessionDoneList st <> [] ->
  let r := saveProgressToGithub repo pat get_reply put_reply rerender st in
  let merged := JS.forEach (sessionDoneList st) JS.add (masterDoneList st) in
  (exists extra,
      merged = masterDoneList st ++ extra
      /\ forall x, In x extra -> In x (sessionDoneList st))
  /\ (btoa merged = Returned merged ->
      (forall data, get_reply = Replied data ->
         traffic r = [GET; PUT merged (Some (sha data))])
      /\ (forall message,
            githubApiFetch repo pat get_reply = Thrown message ->
            JS.includes message "Not Found" = true ->
            traffic r = [GET; PUT merged None])
      /\ (forall message,
            githubApiFetch repo pat get_reply = Thrown message ->
            JS.includes message "Not Found" = false ->
            traffic r = [GET]))
  /\ (forall message, btoa merged = Thrown message ->
        r = {| after := with_master st merged; shown := Saving; traffic := [] |}).
Proof.
  intros Hsends Hne r merged. subst r merged. split.
  { destruct (forEach_add_appends (sessionDoneList st) (masterDoneList st))
      as [extra [Heq [Hsub _]]]. now exists extra. }
  split.
  - intros Hbtoa.
    assert (Henc : encodes st = true).
    { unfold encodes. unfold btoa in Hbtoa.
      destruct (forallb latin1 _); [reflexivity | discriminate]. }
    rewrite (save_encoded _ _ _ _ _ st Hne Henc).
    unfold send_save, latest_sha. rewrite Hsends. split; [|split].
    + intros data ->. unfold githubApiFetch at 1. unfold sends in Hsends.
      apply negb_true_iff in Hsends. rewrite Hsends. cbv iota.
      destruct (githubApiFetch repo pat put_reply) as [newSha | m];
        [destruct rerender|]; reflexivity.
    + intros message -> Hnf. rewrite Hnf. cbn [negb].
      destruct (githubApiFetch repo pat put_reply) as [newSha | m];
        [destruct rerender|]; reflexivity.
    + intros message -> Hnf. rewrite Hnf. reflexivity.
  - intros message Hbtoa. apply save_unencodable; [exact Hne|].
    unfold encodes. unfold btoa in Hbtoa.
    destruct (forallb latin1 _); [discriminate | reflexivity].
Qed.

Lemma save_sends_merged_list_witness :
  traffic (saveProgressToGithub some_repo some_pat
             (found "def" ["Physics_P2_2001"]) (Replied "ghi") (Returned tt)
             fresh_tick)
  = [GET; PUT ["Chem_P1_2020"; "Bio_P1_2019"] (Some "def")]
  /\ traffic (saveProgressToGithub some_repo some_pat
                (found "def" ["Physics_P2_2001"]) (Replied "ghi") (Returned tt)
                dash_tick)
     = [].
Proof.
  assert (Hne : sessionDoneList fresh_tick <> []) by discriminate.
  assert (Hne' : sessionDoneList dash_tick <> []) by discriminate.
  destruct (save_sends_merged_list some_repo some_pat
              (found "def" ["Physics_P2_2001"]) (Replied "ghi") (Returned tt)
              fresh_tick eq_refl Hne) as [_ [Hsent _]].
  destruct (save_sends_merged_list some_repo some_pat
              (found "def" ["Physics_P2_2001"]) (Replied "ghi") (Returned tt)
              dash_tick eq_refl Hne') as [_ [_ Hthrown]].
  split.
  - exact (proj1 (Hsent eq_refl) _ eq_refl).
  - rewrite (Hthrown _ eq_refl). reflexivity.
Defined.

(** Whatever a save PUTs is the merged list, and it only PUTs with
    credentials. *)
Lemma save_puts_merged
  (repo pat : string) (get_reply : transport fileData)
  (put_reply : transport string) (rerender : completion unit) (st : store)
  (content : list string) (guard : option string) :
  In (PUT content guard)
     (traffic (saveProgressToGithub repo pat get_reply put_reply rerender st)) ->
  content = JS.forEach (sessionDoneList st) JS.add (masterDoneList st)
  /\ sends repo pat = true
  /\ encodes st = true.
Proof.
  unfold saveProgressToGithub, btoa, encodes.
  destruct (List.length (sessionDoneList st) =? 0)%nat; [intros []|].
  cbv zeta. cbn [masterDoneList with_master].
  destruct (forallb latin1 _); [|intros []].
  unfold send_save.
  destruct (latest_sha repo pat get_reply) as [latest | m];
    [destruct (githubApiFetch repo pat put_reply) as [newSha | m];
     [destruct rerender|]|];
    destruct (sends repo pat); simpl; intros H;
    repeat (destruct H as [H | H]); try discriminate; try contradiction;
    injection H as <- _; repeat split.
Qed.

(** X7. Save, then load what was saved: when the master set came from a
    load (no id twice) and the save goes through, a load that is answered
    with the content the PUT carried gives back the master list of after
    the save, id for id and in the same order. *)
Theorem save_then_load_round_trip
  (repo pat : string) (get_reply : transport fileData)
  (put_reply : transport string) (rerender : completion unit) (st : store)
  (content : list string) (guard : option string) (h : string) :
  sessionDoneList st <> [] ->
  NoDup (masterDoneList st) ->
  save_fails repo pat get_reply put_reply = false ->
  In (PUT content guard)
     (traffic (saveProgressToGithub repo pat get_reply put_reply rerender st)) ->
  let st1 := after (saveProgressToGithub repo pat get_reply put_reply rerender st) in
  let st2 := after (loadProgressFromGithub repo pat (found h content) st1) in
  masterDoneList st2 = masterDoneList st1
  /\ githubFileSha st2 = Some h
  /\ sessionDoneList st2 = [].
Proof.
  intros Hne Hnd Hok Hput st1 st2.
  destruct (save_puts_merged _ _ _ _ _ _ _ _ Hput) as [Hcontent [Hsends Henc]].
  destruct (completed_save_after repo pat get_reply put_reply rerender st Hne Henc Hok)
    as [newSha [Hfetch Hafter]].
  fold st1 in Hafter.
  assert (Hcontent' : content = masterDoneList st1) by now rewrite Hafter.
  subst st2. rewrite Hcontent'. clear Hcontent Hcontent'.
  unfold loadProgressFromGithub, githubApiFetch, found.
  unfold sends in Hsends. apply negb_true_iff in Hsends. rewrite Hsends.
  cbn -[JS.new_Set]. rewrite new_Set_forEach.
  assert (Hnd1 : NoDup (masterDoneList st1)).
  { rewrite Hafter. simpl. now apply NoDup_forEach_add. }
  split; [now apply (forEach_add_fresh (masterDoneList st1) [])|].
  split; [reflexivity|]. now rewrite Hafter.
Qed.

Lemma save_then_load_round_trip_witness :
  masterDoneList
    (after (loadProgressFromGithub some_repo some_pat
              (found "ghi" ["Chem_P1_2020"; "Bio_P1_2019"])
              (after (saveProgressToGithub some_repo some_pat
                        (found "def" []) (Replied "ghi") (Returned tt) fresh_tick))))
  = ["Chem_P1_2020"; "Bio_P1_2019"].
Proof.
  assert (Hne : sessionDoneList fresh_tick <> []) by discriminate.
  assert (Hnd : NoDup (masterDoneList fresh_tick)).
  { repeat constructor. intros []. }
  assert (Hput : In (PUT ["Chem_P1_2020"; "Bio_P1_2019"] (Some "def"))
                   (traffic (saveProgressToGithub some_repo some_pat
                               (found "def" []) (Replied "ghi") (Returned tt)
                               fresh_tick))).
  { right. left. reflexivity. }
  destruct (save_then_load_round_trip some_repo some_pat (found "def" [])
              (Replied "ghi") (Returned tt) fresh_tick _ _ "ghi" Hne Hnd eq_refl Hput)
    as [Hm _].
  exact Hm.
Defined.

(** X8. After a save that went through ([btoa] returned and neither request
    failed), saving again at once does nothing: no request, no change, only
    the "nothing to save" message. *)
Theorem save_again_does_nothing
  (repo pat : string) (get_reply : transport fileData)
  (put_reply : transport string) (rerender : completion unit) (st : store)
  (repo2 pat2 : string) (get2 : transport fileData) (put2 : transport string)
  (rerender2 : completion unit) :
  sessionDoneList st <> [] ->
  encodes st = true ->
  save_fails repo pat get_reply put_reply = false ->
  let st1 := after (saveProgressToGithub repo pat get_reply put_reply rerender st) in
  saveProgressToGithub repo2 pat2 get2 put2 rerender2 st1
  = {| after := st1; shown := NothingToSave; traffic := [] |}.
Proof.
  intros Hne Henc Hok st1.
  destruct (completed_save_after repo pat get_reply put_reply rerender st Hne Henc Hok)
    as [newSha [_ Hafter]].
  fold st1 in Hafter. unfold saveProgressToGithub. now rewrite Hafter.
Qed.

Lemma save_again_does_nothing_witness :
  traffic
    (saveProgressToGithub some_repo some_pat (found "ghi" []) (Replied "jkl")
       (Returned tt)
       (after (saveProgressToGithub some_repo some_pat (found "def" [])
                 (Replied "ghi") (Returned tt) fresh_tick)))
  = [].
Proof.
  assert (Hne : sessionDoneList fresh_tick <> []) by discriminate.
  rewrite (save_again_does_nothing some_repo some_pat (found "def" [])
             (Replied "ghi") (Returned tt) fresh_tick some_repo some_pat
             (found "ghi" []) (Replied "jkl") (Returned tt) Hne eq_refl eq_refl).
  reflexivity.
Defined.

(** ** Ticking, and whole runs *)

Lemma with_session_same (st : store) : with_session st (sessionDoneList st) = st.
Proof. now destruct st. Qed.

(** X10. Ticking a question that was not ticked and unticking it again
    leaves the store exactly as it was; unticking a question that is not
    ticked changes nothing; and neither touches the master set or the SHA. *)
Theorem tick_untick_round_trip (questionId : string) (st : store) :
  ~ In questionId (sessionDoneList st) ->
  handleResultCheckboxChange "checkbox" questionId false
    (handleResultCheckboxChange "checkbox" questionId true st) = st
  /\ handleResultCheckboxChange "checkbox" questionId false st = st
  /\ masterDoneList (handleResultCheckboxChange "checkbox" questionId true st)
     = masterDoneList st
  /\ githubFileSha (handleResultCheckboxChange "checkbox" questionId true st)
     = githubFileSha st.
Proof.
  intros Hnot. unfold handleResultCheckboxChange. simpl.
  assert (Hkeep : JS.delete questionId (sessionDoneList st) = sessionDoneList st).
  { unfold JS.delete. apply filter_keeps_all. intros y Hy.
    apply negb_true_iff. apply String.eqb_neq. congruence. }
  split; [|split; [|split; reflexivity]].
  - unfold JS.add. apply has_false_iff in Hnot. rewrite Hnot.
    unfold JS.delete. rewrite filter_app. fold (JS.delete questionId (sessionDoneList st)).
    rewrite Hkeep. simpl. rewrite String.eqb_refl. simpl. rewrite app_nil_r.
    unfold with_session. simpl. now destruct st.
  - rewrite Hkeep. apply with_session_same.
Qed.

Lemma tick_untick_round_trip_witness :
  handleResultCheckboxChange "checkbox" "Chem_P1_2019" false
    (handleResultCheckboxChange "checkbox" "Chem_P1_2019" true fresh_tick)
  = fresh_tick.
Proof.
  refine (proj1 (tick_untick_round_trip "Chem_P1_2019" fresh_tick _)).
  simpl. intros [H | []]. discriminate.
Defined.

(** Every handler keeps both sets free of repetitions. *)
Lemma perform_keeps_NoDup (st : store) (a : action) :
  NoDup (masterDoneList st) /\ NoDup (sessionDoneList st) ->
  NoDup (masterDoneList (perform st a)) /\ NoDup (sessionDoneList (perform st a)).
Proof.
  intros [Hm Hs]. destruct a as [repo pat reply | repo pat g p rr | ty q c]; simpl.
  - unfold loadProgressFromGithub, load_catch.
    destruct (githubApiFetch repo pat reply) as [data | m].
    + destruct (doneItems data) as [items | m].
      * cbn -[JS.new_Set]. split; [|exact Hs].
        rewrite new_Set_forEach. apply NoDup_forEach_add. constructor.
      * destruct (JS.includes m "Not Found"); simpl; split;
          try assumption; constructor.
    + destruct (JS.includes m "Not Found"); simpl; split;
        try assumption; constructor.
  - assert (Hmerged : NoDup (JS.forEach (sessionDoneList st) JS.add (masterDoneList st)))
      by now apply NoDup_forEach_add.
    assert (Hback : NoDup (JS.forEach (sessionDoneList st) JS.delete
                             (JS.forEach (sessionDoneList st) JS.add (masterDoneList st))))
      by now apply NoDup_forEach_delete.
    unfold saveProgressToGithub.
    destruct (List.length (sessionDoneList st) =? 0)%nat; [now split|].
    cbv zeta. destruct (btoa _) as [encodedContent | m]; [|now split].
    unfold send_save.
    destruct (latest_sha repo pat g) as [latest | m];
      [destruct (githubApiFetch repo pat p) as [newSha | m]; [destruct rr|]|];
      cbn -[JS.forEach]; split; try assumption; constructor.
  - unfold handleResultCheckboxChange.
    destruct (String.eqb ty "checkbox"); [|now split].
    destruct c; simpl; split; try assumption;
      [now apply NoDup_add | now apply NoDup_delete].
Qed.

(** X9. However loads, saves and ticks follow one another from the start of
    the page, neither the master set nor the session set ever holds an id
    twice, and no save ever writes a list with an id twice. *)
Theorem runs_never_repeat_an_id (actions : list action) :
  NoDup (masterDoneList (run actions))
  /\ NoDup (sessionDoneList (run actions))
  /\ (forall repo pat get_reply put_reply rerender content guard,
        In (PUT content guard)
           (traffic (saveProgressToGithub repo pat get_reply put_reply rerender
                       (run actions))) ->
        NoDup content).
Proof.
  assert (Hinv : NoDup (masterDoneList (run actions))
                 /\ NoDup (sessionDoneList (run actions))).
  { unfold run.
    assert (Hgen : forall st,
      NoDup (masterDoneList st) /\ NoDup (sessionDoneList st) ->
      NoDup (masterDoneList (fold_left perform actions st))
      /\ NoDup (sessionDoneList (fold_left perform actions st))).
    { induction actions as [|a actions IH]; intros st Hst; simpl; [exact Hst|].
      apply IH. now apply perform_keeps_NoDup. }
    apply Hgen. split; constructor. }
  destruct Hinv as [Hm Hs]. split; [exact Hm|]. split; [exact Hs|].
  intros repo pat get_reply put_reply rerender content guard Hput.
  apply save_puts_merged in Hput. destruct Hput as [-> _].
  now apply NoDup_forEach_add.
Qed.

(** ** Grouping, continued *)

Lemma group_step_bucket (o o1 : JS.obj (list question)) (q : question) (k : string) :
  group_step (Some o) q = Some o1 ->
  bucket_of o1 k
  = bucket_of o k ++ (if String.eqb (module q) k then [q] else []).
Proof.
  unfold group_step, JS.get, bucket_of.
  destruct (JS.get_own o (module q)) as [bucket|] eqn:Hb.
  - intros [= <-]. destruct (String.eqb_spec (module q) k) as [<- | Hne].
    + now rewrite get_own_put_same, Hb.
    + rewrite get_own_put_other by exact Hne. now rewrite app_nil_r.
  - destruct (JS.inherited (module q)); [discriminate|]. intros [= <-].
    destruct (String.eqb_spec (module q) k) as [<- | Hne].
    + now rewrite get_own_put_same, Hb.
    + rewrite get_own_put_other by exact Hne. now rewrite app_nil_r.
Qed.

Lemma group_fold_bucket (l : list question) (o o' : JS.obj (list question))
  (k : string) :
  fold_left group_step l (Some o) = Some o' ->
  bucket_of o' k
  = bucket_of o k ++ filter (fun q => String.eqb (module q) k) l.
Proof.
  revert o. induction l as [|q l IH]; intros o; cbn [fold_left filter].
  - intros [= <-]. now rewrite app_nil_r.
  - destruct (group_step (Some o) q) as [o1|] eqn:Hstep.
    + intros Hfold. rewrite (IH o1 Hfold), (group_step_bucket o o1 q k Hstep).
      rewrite <- app_assoc. now destruct (String.eqb (module q) k).
    + rewrite group_step_None. discriminate.
Qed.

(** No bucket is ever created under a name that is inherited. *)
Lemma group_fold_names (l : list question) (o o' : JS.obj (list question)) :
  (forall k, JS.inherited k = true -> JS.get_own o k = None) ->
  fold_left group_step l (Some o) = Some o' ->
  forall k, JS.inherited k = true -> JS.get_own o' k = None.
Proof.
  revert o. induction l as [|q l IH]; intros o Ho; cbn [fold_left].
  - now intros [= <-].
  - destruct (group_step (Some o) q) as [o1|] eqn:Hstep;
      [|rewrite group_step_None; discriminate].
    apply IH. intros k Hk. unfold group_step, JS.get in Hstep.
    destruct (JS.get_own o (module q)) as [bucket|] eqn:Hb.
    + injection Hstep as <-.
      destruct (String.eqb_spec (module q) k) as [<- | Hne].
      * rewrite (Ho _ Hk) in Hb. discriminate.
      * rewrite get_own_put_other by exact Hne. now apply Ho.
    + destruct (JS.inherited (module q)) eqn:Hq; [discriminate|].
      injection Hstep as <-.
      destruct (String.eqb_spec (module q) k) as [<- | Hne]; [congruence|].
      rewrite get_own_put_other by exact Hne. now apply Ho.
Qed.

Lemma group_fold_throws (l : list question) (o : JS.obj (list question))
  (q : question) :
  (forall k, JS.inherited k = true -> JS.get_own o k = None) ->
  In q l -> JS.inherited (module q) = true ->
  fold_left group_step l (Some o) = None.
Proof.
  revert o. induction l as [|q0 l IH]; intros o Ho Hin Hq; [destruct Hin|].
  cbn [fold_left].
  destruct (group_step (Some o) q0) as [o1|] eqn:Hstep;
    [|apply group_step_None].
  destruct Hin as [-> | Hin].
  - unfold group_step, JS.get in Hstep. rewrite (Ho _ Hq), Hq in Hstep.
    discriminate.
  - apply (IH o1); [|exact Hin | exact Hq].
    apply (group_fold_names [q0] o o1 Ho). cbn [fold_left]. exact Hstep.
Qed.

(** X11. Grouping the candidates by module gives, for every module that has
    a candidate, a bucket holding exactly the candidates of that module in
    the order they had, and no other bucket; no bucket is empty and no name
    is used twice. *)
Theorem grouping_buckets_are_the_modules
  (available : list question) (buckets : JS.obj (list question)) :
  group_by_module available = Some buckets ->
  (forall k, bucket_of buckets k
             = filter (fun q => String.eqb (module q) k) available)
  /\ (forall k b, JS.get_own buckets k = Some b -> b <> [])
  /\ (forall k, In k (JS.keys buckets) <-> exists q, In q available /\ module q = k)
  /\ NoDup (JS.keys buckets)
  /\ Permutation (remaining buckets) available.
Proof.
  intros Hg.
  assert (Hb : forall k, bucket_of buckets k
                         = filter (fun q => String.eqb (module q) k) available).
  { intros k. exact (group_fold_bucket available [] buckets k Hg). }
  destruct (group_fold_Some available [] buckets Hg) as [Hp Hw].
  destruct Hw as [Hnd Hne]; [split; [constructor | discriminate]|].
  split; [exact Hb|]. split; [exact Hne|]. split; [|split].
  - intros k. split.
    + intros Hk. apply (Permutation_in k (keys_perm buckets)) in Hk.
      destruct (JS.get_own buckets k) as [b|] eqn:Hgk;
        [|now apply get_own_None in Hgk].
      specialize (Hb k). unfold bucket_of in Hb. rewrite Hgk in Hb.
      pose proof (Hne k b Hgk) as Hbne. destruct b as [|q b]; [congruence|].
      assert (Hq : In q (filter (fun q => String.eqb (module q) k) available))
        by (rewrite <- Hb; now left).
      apply filter_In in Hq. destruct Hq as [Hq Hm]. apply String.eqb_eq in Hm.
      now exists q.
    + intros [q [Hq Hm]].
      apply (Permutation_in k (Permutation_sym (keys_perm buckets))).
      destruct (in_dec string_dec k (map fst buckets)) as [H | H]; [exact H|].
      apply get_own_None in H. specialize (Hb k). unfold bucket_of in Hb.
      rewrite H in Hb.
      assert (Hin : In q (filter (fun q => String.eqb (module q) k) available)).
      { apply filter_In. split; [exact Hq | now apply String.eqb_eq]. }
      rewrite <- Hb in Hin. destruct Hin.
  - apply (Permutation_NoDup (Permutation_sym (keys_perm buckets))). exact Hnd.
  - exact Hp.
Qed.

Lemma grouping_buckets_are_the_modules_witness :
  bucket_of
    (match group_by_module (getFlattenedQuestions lopsided) with
     | Some buckets => buckets
     | None => []
     end) "Maths"
  = [ mkQuestion "Maths_P1_2019" "Maths" "P1" "2019";
      mkQuestion "Maths_P1_2020" "Maths" "P1" "2020" ].
Proof.
  destruct (group_by_module (getFlattenedQuestions lopsided)) as [buckets|] eqn:Hg;
    [|discriminate].
  destruct (grouping_buckets_are_the_modules _ buckets Hg) as [Hb _].
  rewrite (Hb "Maths"). reflexivity.
Defined.

(** X12. Grouping throws exactly when some candidate's module is called
    like a property every object inherits ("constructor", "toString", ...):
    the callback then calls [push] on what it found under that name. *)
Theorem grouping_throws_on_inherited_names (available : list question) :
  group_by_module available = None
  <-> exists q, In q available /\ JS.inherited (module q) = true.
Proof.
  split.
  - intros Hnone.
    destruct (existsb (fun q => JS.inherited (module q)) available) eqn:Hex.
    + apply existsb_exists in Hex. exact Hex.
    + exfalso.
      assert (Hall : forall q, In q available -> JS.inherited (module q) = false).
      { intros q Hq. destruct (JS.inherited (module q)) eqn:Hi; [|reflexivity].
        assert (Hsome : existsb (fun q => JS.inherited (module q)) available = true)
          by (apply existsb_exists; now exists q).
        congruence. }
      destruct (group_fold_total available [] Hall) as [o' Ho'].
      change (group_by_module available = Some o') in Ho'.
      rewrite Hnone in Ho'. discriminate.
  - intros [q [Hq Hi]]. unfold group_by_module.
    apply (group_fold_throws available [] q); [reflexivity | exact Hq | exact Hi].
Qed.

(** ** One pass of the rotation *)

Lemma get_own_Some_In {V : Type} (o : JS.obj V) (k : string) (v : V) :
  JS.get_own o k = Some v -> In (k, v) o.
Proof.
  induction o as [|[k' v'] o IH]; simpl; [discriminate|].
  destruct (String.eqb_spec k k') as [<- | Hne].
  - intros [= <-]. now left.
  - intros H. right. now apply IH.
Qed.

Lemma filed_put (o : JS.obj (list question)) (k : string) (v : list question) :
  filed_by_module o ->
  Forall (fun q => module q = k) v ->
  filed_by_module (JS.put o k v).
Proof.
  unfold filed_by_module. intros Ho Hv.
  induction o as [|[k' v'] o IH]; simpl.
  - repeat constructor. exact Hv.
  - inversion Ho as [|? ? Hhead Htail]. subst.
    destruct (String.eqb_spec k k') as [<- | Hne].
    + constructor; [exact Hv | exact Htail].
    + constructor; [exact Hhead | now apply IH].
Qed.

Lemma group_by_module_filed (available : list question)
  (buckets : JS.obj (list question)) :
  group_by_module available = Some buckets -> filed_by_module buckets.
Proof.
  intros Hg. destruct (group_fold_Some available [] buckets Hg) as [_ Hw].
  destruct Hw as [Hnd _]; [split; [constructor | discriminate]|].
  apply Forall_forall. intros [k b] Hin. simpl.
  pose proof (group_fold_bucket available [] buckets k Hg) as Hb.
  unfold bucket_of in Hb. rewrite (get_own_In buckets k b Hnd Hin) in Hb.
  simpl in Hb. rewrite Hb. apply Forall_forall. intros q Hq.
  apply filter_In in Hq. now apply String.eqb_eq.
Qed.

Lemma app_cons_unique {A : Type} (x : A) (a b l1 l2 : list A) :
  ~ In x a -> ~ In x l1 -> a ++ x :: b = l1 ++ x :: l2 -> a = l1 /\ b = l2.
Proof.
  revert l1. induction a as [|y a IH]; intros [|z l1] Ha Hl; simpl.
  - intros [= ->]. now split.
  - intros [= -> _]. exfalso. apply Hl. now left.
  - intros [= -> _]. exfalso. apply Ha. now left.
  - intros [= -> Heq]. destruct (IH l1) as [-> ->]; try assumption.
    + intros H. apply Ha. now right.
    + intros H. apply Hl. now right.
    + now split.
Qed.

(** What is left to visit after the key at [i] has been dealt with: only
    keys that were already waiting behind it. *)
Lemma still_to_visit (keys keys1 : list string) (i : nat) (mod_ : string) :
  NoDup keys ->
  nth_error keys i = Some mod_ ->
  keys1 = keys \/ keys1 = JS.splice_indexOf keys mod_ ->
  forall k, In k (skipn (S i) keys1) -> In k (skipn (S i) keys) /\ k <> mod_.
Proof.
  intros Hnd Hnth Hkeys1 k Hk.
  destruct (nth_error_split keys i Hnth) as [a [b [Hsplit Hlen]]].
  assert (Hb : skipn (S i) keys = b).
  { subst keys i. rewrite skipn_app, skipn_all2 by lia.
    replace (S (List.length a) - List.length a) with 1 by lia. reflexivity. }
  rewrite Hsplit in Hnd.
  pose proof (NoDup_remove_2 _ _ _ Hnd) as Hgone.
  assert (Hnotb : forall y, In y b -> y <> mod_).
  { intros y Hy ->. apply Hgone. apply in_or_app. now right. }
  destruct Hkeys1 as [-> | ->].
  - rewrite Hb in *. split; [exact Hk | now apply Hnotb].
  - assert (Hin : In mod_ keys) by (rewrite Hsplit; apply in_elt).
    destruct (splice_indexOf_found keys mod_ Hin) as [l1 [l2 [Hl [Hnot Hsp]]]].
    assert (Ha : ~ In mod_ a).
    { intros H. apply Hgone. apply in_or_app. now left. }
    rewrite Hsplit in Hl.
    destruct (app_cons_unique mod_ a b l1 l2 Ha Hnot Hl) as [<- <-].
    rewrite Hsp in Hk. rewrite <- Hlen in Hk.
    rewrite skipn_app, skipn_all2 in Hk by lia.
    replace (S (List.length a) - List.length a) with 1 in Hk by lia.
    simpl in Hk. rewrite Hb.
    assert (Hkb : In k b) by (destruct b; [destruct Hk | now right]).
    split; [exact Hkb | now apply Hnotb].
Qed.

Section OnePass.

Variable random : nat -> nat.
Variable num : JS.number.
Variable available : list question.

(** A draw from the bucket of a key in the rotation takes one question of
    that module, and removes at most that key from the rotation. *)
Lemma draw_shape (mod_ : string) (st : rotation) :
  consistent available st ->
  filed_by_module (questionsByModule st) ->
  In mod_ (moduleKeys st) ->
  exists st1 q,
    draw random mod_ st = Some st1
    /\ consistent available st1
    /\ filed_by_module (questionsByModule st1)
    /\ selected st1 = selected st ++ [q]
    /\ module q = mod_
    /\ (moduleKeys st1 = moduleKeys st
        \/ moduleKeys st1 = JS.splice_indexOf (moduleKeys st) mod_).
Proof.
  intros Hc Hf Hin.
  destruct (draw_consistent random available mod_ st Hc Hin) as [st1 [Hdraw [Hc1 _]]].
  destruct (proj1 (keys_nonempty _ _ Hc mod_) Hin) as [b [Hb Hne]].
  assert (Hlt : JS.rand_index (random (draws st)) (List.length b) < List.length b).
  { apply rand_index_lt. destruct b; [congruence | simpl; lia]. }
  destruct (splice1_in_bounds _ b Hlt) as [q [l1 [l2 [Hl Hs]]]].
  assert (Hbucket : Forall (fun q => module q = mod_) b).
  { unfold filed_by_module in Hf. rewrite Forall_forall in Hf.
    exact (Hf (mod_, b) (get_own_Some_In _ _ _ Hb)). }
  exists st1, q. split; [exact Hdraw|]. split; [exact Hc1|].
  unfold draw in Hdraw. rewrite Hb, Hs in Hdraw. injection Hdraw as <-. simpl.
  rewrite Hl in Hbucket. split; [|split; [reflexivity|split]].
  - apply filed_put; [exact Hf|].
    apply Forall_app in Hbucket. destruct Hbucket as [H1 H2].
    inversion H2; subst. apply Forall_app. now split.
  - apply Forall_app in Hbucket. destruct Hbucket as [_ H2]. now inversion H2.
  - destruct (List.length (l1 ++ l2) =? 0)%nat; [now right | now left].
Qed.

Lemma for_of_one_per_module (fuel i : nat) (st : rotation) :
  consistent available st ->
  filed_by_module (questionsByModule st) ->
  exists st' new,
    for_of random num fuel i st = Some st'
    /\ consistent available st'
    /\ filed_by_module (questionsByModule st')
    /\ selected st' = selected st ++ new
    /\ NoDup (map module new)
    /\ (forall q, In q new -> In (module q) (skipn i (moduleKeys st))).
Proof.
  revert i st. induction fuel as [|fuel IH]; intros i st Hc Hf; simpl.
  - exists st, []. rewrite app_nil_r.
    split; [reflexivity|]. split; [exact Hc|]. split; [exact Hf|].
    split; [reflexivity|]. split; [constructor | intros q []].
  - destruct (nth_error (moduleKeys st) i) as [mod_|] eqn:Hnth.
    + destruct (JS.ge_num (count st) num).
      * exists st, []. rewrite app_nil_r.
        split; [reflexivity|]. split; [exact Hc|]. split; [exact Hf|].
        split; [reflexivity|]. split; [constructor | intros q []].
      * destruct (draw_shape mod_ st Hc Hf (nth_error_In _ _ Hnth))
          as [st1 [q [Hdraw [Hc1 [Hf1 [Hsel [Hmod Hkeys]]]]]]].
        rewrite Hdraw.
        destruct (IH (S i) st1 Hc1 Hf1) as [st' [new [Hfor [Hc' [Hf' [Hsel' [Hnd Hin]]]]]]].
        pose proof (still_to_visit (moduleKeys st) (moduleKeys st1) i mod_
                      (keys_distinct _ _ Hc) Hnth Hkeys) as Hvisit.
        exists st', (q :: new). split; [exact Hfor|]. split; [exact Hc'|].
        split; [exact Hf'|]. split; [|split].
        -- rewrite Hsel', Hsel, <- app_assoc. reflexivity.
        -- simpl. constructor; [|exact Hnd].
           intros Hq. apply in_map_iff in Hq. destruct Hq as [q' [Hm Hq']].
           destruct (Hvisit _ (Hin q' Hq')) as [_ Hne]. congruence.
        -- destruct (nth_error_split _ _ Hnth) as [a [b [Hsplit Hlen]]].
           assert (Hhere : skipn i (moduleKeys st) = mod_ :: b).
           { rewrite Hsplit, <- Hlen, skipn_app, skipn_all, Nat.sub_diag.
             reflexivity. }
           assert (Hnext : skipn (S i) (moduleKeys st) = b).
           { rewrite Hsplit, <- Hlen, skipn_app, skipn_all2 by lia.
             replace (S (List.length a) - List.length a) with 1 by lia.
             reflexivity. }
           intros q' [<- | Hq'].
           ++ rewrite Hhere, Hmod. now left.
           ++ rewrite Hhere. right. rewrite <- Hnext.
              exact (proj1 (Hvisit _ (Hin q' Hq'))).
    + exists st, []. rewrite app_nil_r.
      split; [reflexivity|]. split; [exact Hc|]. split; [exact Hf|].
      split; [reflexivity|]. split; [constructor | intros q []].
Qed.

Lemma passes_keep_consistent (n : nat) (st st' : rotation) :
  consistent available st ->
  filed_by_module (questionsByModule st) ->
  passes random num n st = Some st' ->
  consistent available st' /\ filed_by_module (questionsByModule st').
Proof.
  revert st. induction n as [|n IH]; intros st Hc Hf; simpl.
  - intros [= <-]. now split.
  - unfold pass.
    destruct (for_of_one_per_module (List.length (moduleKeys st)) 0 st Hc Hf)
      as [st1 [new [Hfor [Hc1 [Hf1 _]]]]].
    rewrite Hfor. now apply IH.
Qed.

End OnePass.

(** X13. Within one pass of the rotation no module gives more than one
    question: after any number of passes over the grouped candidates, what
    the next pass adds to the selection comes from pairwise different
    modules, all of them in the rotation when the pass began. *)
Theorem a_pass_takes_one_per_module
  (random : nat -> nat) (num : JS.number) (available : list question)
  (buckets : JS.obj (list question)) (n : nat) (st st' : rotation) :
  group_by_module available = Some buckets ->
  passes random num n
    {| questionsByModule := buckets; moduleKeys := JS.keys buckets;
       selected := []; count := 0; draws := 0 |} = Some st ->
  pass random num st = Some st' ->
  exists new,
    selected st' = selected st ++ new
    /\ NoDup (map module new)
    /\ (forall q, In q new -> In (module q) (moduleKeys st)).
Proof.
  intros Hg Hpasses Hpass.
  destruct (passes_keep_consistent random num available n _ st
              (group_by_module_consistent available buckets Hg)
              (group_by_module_filed available buckets Hg) Hpasses) as [Hc Hf].
  destruct (for_of_one_per_module random num available
              (List.length (moduleKeys st)) 0 st Hc Hf)
    as [st1 [new [Hfor [_ [_ [Hsel [Hnd Hin]]]]]]].
  unfold pass in Hpass. rewrite Hfor in Hpass. injection Hpass as <-.
  exists new. split; [exact Hsel|]. split; [exact Hnd|]. exact Hin.
Qed.

Lemma a_pass_takes_one_per_module_witness :
  exists st st' new,
    passes lowest (JS.Int 6) 1
      {| questionsByModule :=
           match group_by_module (getFlattenedQuestions lopsided) with
           | Some buckets => buckets
           | None => []
           end;
         moduleKeys := ["Maths"; "Earth"; "Bio"; "Chem"];
         selected := []; count := 0; draws := 0 |} = Some st
    /\ pass lowest (JS.Int 6) st = Some st'
    /\ selected st' = selected st ++ new
    /\ NoDup (map module new).
Proof.
  destruct (group_by_module (getFlattenedQuestions lopsided)) as [buckets|] eqn:Hg;
    [|discriminate].
  assert (Hkeys : JS.keys buckets = ["Maths"; "Earth"; "Bio"; "Chem"]).
  { vm_compute in Hg. injection Hg as <-. reflexivity. }
  destruct (passes lowest (JS.Int 6) 1
              {| questionsByModule := buckets; moduleKeys := JS.keys buckets;
                 selected := []; count := 0; draws := 0 |}) as [st|] eqn:Hp;
    [|vm_compute in Hg; injection Hg as <-; discriminate].
  destruct (pass lowest (JS.Int 6) st) as [st'|] eqn:Hpass;
    [|vm_compute in Hg; injection Hg as <-; vm_compute in Hp;
      injection Hp as <-; discriminate].
  destruct (a_pass_takes_one_per_module lowest (JS.Int 6)
              (getFlattenedQuestions lopsided) buckets 1 st st' Hg Hp Hpass)
    as [new [Hsel [Hnd _]]].
  exists st, st', new. rewrite <- Hkeys.
  split; [exact Hp|]. split; [exact Hpass|]. split; [exact Hsel | exact Hnd].
Defined.

(** ** Selection, continued *)

Lemma candidates_match_filters (modules : catalog) (done : JS.jsset)
  (moduleFilter paperFilter : string) (q : question) :
  In q (candidates modules done moduleFilter paperFilter) ->
  (moduleFilter <> "all" -> module q = moduleFilter)
  /\ (paperFilter <> "all" -> paper q = paperFilter).
Proof.
  unfold candidates, by_paper, by_module. intros Hin. split.
  - intros Hm. apply String.eqb_neq in Hm. rewrite Hm in Hin.
    destruct (String.eqb paperFilter "all");
      [|apply filter_In in Hin; destruct Hin as [Hin _]];
      apply filter_In in Hin; destruct Hin as [_ Heq]; now apply String.eqb_eq.
  - intros Hp. apply String.eqb_neq in Hp. rewrite Hp in Hin.
    apply filter_In in Hin. destruct Hin as [_ Heq]. now apply String.eqb_eq.
Qed.

(** Whatever is selected is a candidate. *)
Lemma selected_are_candidates
  (random : nat -> nat) (num : JS.number) (fuel : nat) (modules : catalog)
  (done : JS.jsset) (moduleFilter paperFilter : string) (modeRandom : bool) :
  match generateQuestions random num fuel (Some modules) done moduleFilter
          paperFilter modeRandom with
  | Rendered sel | Spinning sel =>
      forall q, In q sel -> In q (candidates modules done moduleFilter paperFilter)
  | NotLoaded | TypeError => True
  end.
Proof.
  unfold generateQuestions. cbv beta iota zeta.
  set (pool := candidates modules done moduleFilter paperFilter). clearbody pool.
  destruct (List.length pool =? 0)%nat; [intros q []|].
  destruct (negb modeRandom && String.eqb moduleFilter "all").
  - unfold homogeneous.
    destruct (group_by_module pool) as [buckets|] eqn:Hg; [|exact I].
    destruct (group_fold_Some pool [] buckets Hg) as [Hp _].
    pose proof (rotate_permutes random num pool fuel
                  {| questionsByModule := buckets; moduleKeys := JS.keys buckets;
                     selected := []; count := 0; draws := 0 |}) as Hrot.
    destruct (rotate random num fuel pool _) as [sel| | |sel]; try exact I;
      destruct Hrot as [rest Hrest]; intros q Hq;
      apply (Permutation_in q Hp); apply (Permutation_in q Hrest);
      apply in_or_app; now left.
  - destruct (fully_random_spec random num (List.length pool) 0 [] pool (le_n _))
      as [rest [Hp _]].
    intros q Hq. apply (Permutation_in q Hp). apply in_or_app. now left.
Qed.

(** X14. With "random" ticked or a module chosen, the selection always
    returns, however many questions are asked for: it renders min(N, |pool|)
    questions, and when N is at least |pool| it renders every candidate
    exactly once. *)
Theorem random_branch_always_returns
  (random : nat -> nat) (num : JS.number) (modules : catalog) (done : JS.jsset)
  (moduleFilter paperFilter : string) (modeRandom : bool) :
  modeRandom = true \/ moduleFilter <> "all" ->
  let pool := candidates modules done moduleFilter paperFilter in
  exists sel,
    (forall fuel,
        generateQuestions random num fuel (Some modules) done moduleFilter
          paperFilter modeRandom = Rendered sel)
    /\ List.length sel = Nat.min (wanted num) (List.length pool)
    /\ (List.length pool <= wanted num -> Permutation sel pool).
Proof.
  intros Hbranch pool. unfold generateQuestions. cbv beta iota zeta.
  change (candidates modules done moduleFilter paperFilter) with pool.
  clearbody pool.
  assert (Hmode : negb modeRandom && String.eqb moduleFilter "all" = false).
  { destruct Hbranch as [-> | Hm]; [reflexivity|].
    apply String.eqb_neq in Hm. rewrite Hm. apply andb_false_r. }
  rewrite Hmode.
  destruct (Nat.eqb_spec (List.length pool) 0) as [Hempty | Hsome].
  - exists []. split; [reflexivity|]. rewrite Hempty. split; [simpl; lia|].
    intros _. destruct pool; [reflexivity | discriminate].
  - destruct (fully_random_spec random num (List.length pool) 0 [] pool (le_n _))
      as [rest [Hp Hlen]].
    exists (fully_random random num (List.length pool) 0 [] pool).
    split; [reflexivity|]. split; [rewrite Hlen; simpl; lia|].
    intros Hall. pose proof (Permutation_length Hp) as Hl.
    rewrite length_app, Hlen in Hl. simpl in Hl.
    assert (Hrest : rest = []) by (destruct rest; [reflexivity | simpl in Hl; lia]).
    rewrite Hrest, app_nil_r in Hp. exact Hp.
Qed.

Lemma random_branch_always_returns_witness :
  exists sel,
    generateQuestions lowest (JS.Int 7) 0 (Some chem_bio) [] "Chem" "all" false
    = Rendered sel
    /\ List.length sel = 1.
Proof.
  assert (Hbranch : false = true \/ "Chem" <> "all") by (right; discriminate).
  destruct (random_branch_always_returns lowest (JS.Int 7) chem_bio [] "Chem"
              "all" false Hbranch) as [sel [Hrun [Hlen _]]].
  exists sel. split; [apply Hrun | exact Hlen].
Defined.

(** X15. Every question the selection picks, rendered or picked so far, is
    a question of the catalog that passes both filters: of the chosen
    module unless "all" is chosen, and of the chosen paper unless "all" is
    chosen. *)
Theorem selection_respects_filters
  (random : nat -> nat) (num : JS.number) (fuel : nat) (modules : catalog)
  (done : JS.jsset) (moduleFilter paperFilter : string) (modeRandom : bool) :
  match generateQuestions random num fuel (Some modules) done moduleFilter
          paperFilter modeRandom with
  | Rendered sel | Spinning sel =>
      forall q, In q sel ->
        In q (getFlattenedQuestions modules)
        /\ (moduleFilter <> "all" -> module q = moduleFilter)
        /\ (paperFilter <> "all" -> paper q = paperFilter)
  | NotLoaded | TypeError => True
  end.
Proof.
  pose proof (selected_are_candidates random num fuel modules done moduleFilter
                paperFilter modeRandom) as Hsel.
  destruct (generateQuestions random num fuel (Some modules) done moduleFilter
              paperFilter modeRandom) as [sel| | |sel]; try exact I;
    intros q Hq; specialize (Hsel q Hq);
    (split; [exact (proj2 (candidates_not_done _ _ _ _ _ Hsel))
            | exact (candidates_match_filters _ _ _ _ _ Hsel)]).
Qed.

(** ** The result list *)

(** X16. A freshly generated list shows one entry per selected question, in
    selection order, none of them marked completed or disabled, and ticked
    exactly where the question is in the session set (a tick made on an
    earlier list shows again). *)
Theorem fresh_list_is_all_enabled
  (random : nat -> nat) (num : JS.number) (fuel : nat) (modules : catalog)
  (done session : JS.jsset) (moduleFilter paperFilter : string)
  (modeRandom : bool) (sel : list question) :
  generateQuestions random num fuel (Some modules) done moduleFilter paperFilter
    modeRandom = Rendered sel ->
  match renderResults done session sel with
  | Placeholder => sel = []
  | Listed items =>
      map li_id items = map id sel
      /\ (forall it, In it items ->
            disabled it = false /\ completed it = false
            /\ checked it = JS.has session (li_id it))
  end.
Proof.
  intros Hgen.
  pose proof (selected_are_candidates random num fuel modules done moduleFilter
                paperFilter modeRandom) as Hsel.
  rewrite Hgen in Hsel. unfold renderResults.
  destruct sel as [|q0 sel]; [reflexivity|].
  split.
  - rewrite map_map. reflexivity.
  - intros it Hit. apply in_map_iff in Hit. destruct Hit as [q [<- Hq]].
    destruct (candidates_not_done _ _ _ _ _ (Hsel q Hq)) as [Hnot _].
    unfold render_item. simpl. rewrite Hnot. repeat split.
Qed.

Lemma fresh_list_is_all_enabled_witness :
  renderResults [] ["Bio_P1_2019"]
    [ mkQuestion "Chem_P1_2020" "Chem" "P1" "2020";
      mkQuestion "Bio_P1_2019" "Bio" "P1" "2019" ]
  <> Placeholder.
Proof.
  pose proof (fresh_list_is_all_enabled lowest (JS.Int 2) 3 chem_bio []
                ["Bio_P1_2019"] "all" "all" false
                [ mkQuestion "Chem_P1_2020" "Chem" "P1" "2020";
                  mkQuestion "Bio_P1_2019" "Bio" "P1" "2019" ] eq_refl) as H.
  intros Hp. rewrite Hp in H. discriminate H.
Defined.

(** ** Links *)

Lemma year_here_shape (s y : string) :
  year_here s = Some y ->
  exists c d rest,
    is_digit c = true /\ is_digit d = true
    /\ (y = String "1" (String "9" (String c (String d EmptyString)))
        \/ y = String "2" (String "0" (String c (String d EmptyString))))
    /\ s = (y ++ rest)%string.
Proof.
  unfold year_here.
  destruct s as [|a [|b [|c [|d rest]]]]; try discriminate.
  destruct ((Ascii.eqb a "1" && Ascii.eqb b "9") || (Ascii.eqb a "2" && Ascii.eqb b "0"))
    eqn:Hcentury; [|discriminate].
  destruct (is_digit c) eqn:Hc; [|discriminate].
  destruct (is_digit d) eqn:Hd; [|discriminate].
  simpl. destruct (match rest with
                   | EmptyString => true
                   | String e _ => negb (is_word e)
                   end); [|discriminate].
  intros [= <-]. exists c, d, rest. split; [exact Hc|]. split; [exact Hd|].
  split; [|reflexivity].
  apply orb_prop in Hcentury. destruct Hcentury as [H | H];
    apply andb_prop in H; destruct H as [Ha Hb];
    apply Ascii.eqb_eq in Ha; apply Ascii.eqb_eq in Hb; subst; [now left | now right].
Qed.

Lemma match_year_shape (after_word : bool) (s y : string) :
  match_year after_word s = Some y ->
  exists c d pre post,
    is_digit c = true /\ is_digit d = true
    /\ (y = String "1" (String "9" (String c (String d EmptyString)))
        \/ y = String "2" (String "0" (String c (String d EmptyString))))
    /\ s = (pre ++ y ++ post)%string.
Proof.
  revert after_word. induction s as [|a s IH]; intros after_word; [discriminate|].
  cbn [match_year].
  destruct (if after_word then None else year_here (String a s)) as [y'|] eqn:Hhere.
  - intros [= <-]. destruct after_word; [discriminate|].
    destruct (year_here_shape _ _ Hhere) as [c [d [rest [Hc [Hd [Hy Hs]]]]]].
    exists c, d, EmptyString, rest. repeat split; assumption.
  - intros Hrest. destruct (IH _ Hrest) as [c [d [pre [post [Hc [Hd [Hy Hs]]]]]]].
    exists c, d, (String a pre), post. repeat split; try assumption.
    simpl. now rewrite Hs.
Qed.

(** X17. The link of an entry: when the label holds a year the link goes to
    the viewer with that year, which is four characters of the label, "19"
    or "20" followed by two digits; otherwise the link is "#" with the
    "could not extract" title.  A label that is nothing but such a year is
    always linked with it. *)
Theorem link_carries_a_year_of_the_label
  (master session : JS.jsset) (q : question) :
  (match match_year false (year q) with
   | Some y =>
       href (render_item master session q)
       = ("https://camcribs.com/viewer?year=IB&type=tripos&module="
          ++ module q ++ "&id=QP_" ++ y)%string
       /\ new_tab (render_item master session q) = true
       /\ exists c d pre post,
            is_digit c = true /\ is_digit d = true
            /\ (y = String "1" (String "9" (String c (String d EmptyString)))
                \/ y = String "2" (String "0" (String c (String d EmptyString))))
            /\ year q = (pre ++ y ++ post)%string
   | None =>
       href (render_item master session q) = "#"
       /\ title (render_item master session q)
          = Some "Could not extract year for link"
   end)
  /\ (forall c d,
        is_digit c = true -> is_digit d = true ->
        match_year false (String "1" (String "9" (String c (String d EmptyString))))
        = Some (String "1" (String "9" (String c (String d EmptyString))))
        /\ match_year false (String "2" (String "0" (String c (String d EmptyString))))
           = Some (String "2" (String "0" (String c (String d EmptyString))))).
Proof.
  split.
  - unfold render_item. simpl.
    destruct (match_year false (year q)) as [y|] eqn:Hy.
    + split; [reflexivity|]. split; [reflexivity|].
      exact (match_year_shape _ _ _ Hy).
    + split; reflexivity.
  - intros c d Hc Hd. cbn [match_year year_here]. simpl. rewrite Hc, Hd.
    split; reflexivity.
Qed.

Lemma link_carries_a_year_of_the_label_witness :
  href (render_item [] [] (mkQuestion "Chem_P1_Tripos 2019 Q3" "Chem" "P1" "Tripos 2019 Q3"))
  = "https://camcribs.com/viewer?year=IB&type=tripos&module=Chem&id=QP_2019"
  /\ match_year false "2007" = Some "2007".
Proof.
  destruct (link_carries_a_year_of_the_label [] []
              (mkQuestion "Chem_P1_Tripos 2019 Q3" "Chem" "P1" "Tripos 2019 Q3"))
    as [Hlink Hexact].
  split.
  - exact (proj1 Hlink).
  - exact (proj2 (Hexact "0"%char "7"%char eq_refl eq_refl)).
Defined.

(** X18. When a save went through ([btoa] returned and neither request
    failed), the list drawn again at its end holds
    only questions that were on the page, none of them ticked, and every
    one whose id the save recorded shows as completed with its checkbox
    disabled; every question of the catalog that was on the page is in it. *)
Theorem saved_ticks_show_completed
  (repo pat : string) (get_reply : transport fileData)
  (put_reply : transport string) (rerender : completion unit) (st : store)
  (modules : catalog) (displayed : list string) :
  sessionDoneList st <> [] ->
  encodes st = true ->
  save_fails repo pat get_reply put_reply = false ->
  let st1 := after (saveProgressToGithub repo pat get_reply put_reply rerender st) in
  exists v,
    redisplay (Some modules) displayed st1 = Returned v
    /\ match v with
       | Placeholder =>
           forall q, In q (getFlattenedQuestions modules) -> ~ In (id q) displayed
       | Listed items =>
           (forall it, In it items ->
              checked it = false
              /\ In (li_id it) displayed
              /\ (In (li_id it) (sessionDoneList st) ->
                  disabled it = true /\ completed it = true))
           /\ (forall q, In q (getFlattenedQuestions modules) ->
                 In (id q) displayed ->
                 exists it, In it items /\ li_id it = id q)
       end.
Proof.
  intros Hne Henc Hok st1.
  destruct (completed_save_after repo pat get_reply put_reply rerender st Hne Henc Hok)
    as [newSha [_ Hafter]].
  fold st1 in Hafter. unfold redisplay. eexists. split; [reflexivity|].
  rewrite Hafter. cbn [masterDoneList sessionDoneList].
  set (shown_again := filter (fun q => existsb (String.eqb (id q)) displayed)
                        (getFlattenedQuestions modules)).
  assert (Hshown : forall q, In q shown_again
                             <-> In q (getFlattenedQuestions modules)
                                 /\ In (id q) displayed).
  { intros q. unfold shown_again. rewrite filter_In, existsb_exists. split.
    - intros [Hq [x [Hx Heq]]]. apply String.eqb_eq in Heq. now subst.
    - intros [Hq Hd]. split; [exact Hq|]. exists (id q). split; [exact Hd|].
      apply String.eqb_refl. }
  clearbody shown_again. unfold renderResults.
  destruct shown_again as [|q0 rest] eqn:Hlist.
  - intros q Hq Hd. exact (proj2 (Hshown q) (conj Hq Hd)).
  - rewrite <- Hlist in *. split.
    + intros it Hit. apply in_map_iff in Hit. destruct Hit as [q [<- Hq]].
      unfold render_item. simpl. split; [reflexivity|].
      split; [exact (proj2 (proj1 (Hshown q) Hq))|].
      intros Hticked.
      assert (Hin : JS.has (JS.forEach (sessionDoneList st) JS.add (masterDoneList st))
                      (id q) = true).
      { apply has_true_iff. apply forEach_add_union. now right. }
      rewrite Hin. now split.
    + intros q Hq Hd. exists (render_item
                               (JS.forEach (sessionDoneList st) JS.add (masterDoneList st))
                               [] q).
      split; [|reflexivity]. apply in_map. apply Hshown. now split.
Qed.

Lemma saved_ticks_show_completed_witness :
  redisplay (Some chem_bio) ["Chem_P1_2020"; "Bio_P1_2019"]
    (after (saveProgressToGithub some_repo some_pat (found "def" [])
              (Replied "ghi") (Returned tt) fresh_tick))
  <> Thrown "Cannot read properties of null (reading 'michaelmas')".
Proof.
  assert (Hne : sessionDoneList fresh_tick <> []) by discriminate.
  destruct (saved_ticks_show_completed some_repo some_pat (found "def" [])
              (Replied "ghi") (Returned tt) fresh_tick chem_bio
              ["Chem_P1_2020"; "Bio_P1_2019"] Hne eq_refl eq_refl) as [v [Hv _]].
  rewrite Hv. discriminate.
Defined.

(** ** What the page remembers and offers *)

(** X19. The repository and token a request was made with are what
    [loadLocalConfig] puts back into the two fields on the next visit,
    whatever was stored or typed before; a request that is refused for want
    of either stores nothing. *)
Theorem credentials_round_trip
  (repo pat : string) (storage : JS.obj string) (inputs : string * string) :
  sends repo pat = true ->
  loadLocalConfig (stored_by_fetch repo pat storage) inputs = (repo, pat)
  /\ (forall repo' pat', sends repo' pat' = false ->
        stored_by_fetch repo' pat' (stored_by_fetch repo pat storage)
        = stored_by_fetch repo pat storage).
Proof.
  intros Hsends. split.
  - unfold loadLocalConfig, stored_by_fetch, getItem. unfold sends in Hsends.
    apply negb_true_iff in Hsends. rewrite Hsends.
    apply orb_false_elim in Hsends. destruct Hsends as [Hr Hp].
    rewrite get_own_put_same, get_own_put_other, get_own_put_same by discriminate.
    now rewrite Hr, Hp.
  - intros repo' pat' Hno. unfold sends in Hno. apply negb_false_iff in Hno.
    unfold stored_by_fetch at 1. now rewrite Hno.
Qed.

Lemma credentials_round_trip_witness :
  loadLocalConfig (stored_by_fetch some_repo some_pat [("githubRepo", "old/one")])
    (EmptyString, EmptyString)
  = (some_repo, some_pat).
Proof.
  exact (proj1 (credentials_round_trip some_repo some_pat
                  [("githubRepo", "old/one")] (EmptyString, EmptyString) eq_refl)).
Defined.

(** X20. The filters offered lead to their questions: every module of the
    catalog is offered; for one other than "all" the paper drop-down offers
    "all" and the module's papers; and choosing one of them (not itself
    called "all") makes every year of that paper whose id is not in the
    master set a candidate. *)
Theorem offered_paper_selects_its_questions
  (modules : catalog) (done : JS.jsset) (m p : string)
  (papers : JS.obj (list string)) (years : list string) :
  m <> "all" -> p <> "all" ->
  JS.get_own modules m = Some papers ->
  JS.get_own papers p = Some years ->
  (forall options, In m (populateModuleFilter options (Some modules)))
  /\ populatePaperFilter m (Some modules) = Returned ("all" :: JS.keys papers)
  /\ In p (JS.keys papers)
  /\ (forall y, In y years -> ~ In (composite_id m p y) done ->
        In (mkQuestion (composite_id m p y) m p y) (candidates modules done m p)).
Proof.
  intros Hm Hp Hpapers Hyears.
  assert (Hinp : In (p, years) (JS.for_in papers)).
  { apply (Permutation_in _ (Permutation_sym (for_in_perm papers))).
    now apply get_own_Some_In. }
  assert (Hinm : In (m, papers) (JS.for_in modules)).
  { apply (Permutation_in _ (Permutation_sym (for_in_perm modules))).
    now apply get_own_Some_In. }
  split; [|split; [|split]].
  - intros options. unfold populateModuleFilter, JS.keys. apply in_or_app. right.
    apply in_map_iff. now exists (m, papers).
  - unfold populatePaperFilter, JS.get. apply String.eqb_neq in Hm.
    now rewrite Hm, Hpapers.
  - unfold JS.keys. apply in_map_iff. now exists (p, years).
  - intros y Hy Hdone. unfold candidates, by_paper, by_module.
    apply String.eqb_neq in Hm. apply String.eqb_neq in Hp. rewrite Hm, Hp.
    apply filter_In. split; [|apply String.eqb_refl].
    apply filter_In. split; [|apply String.eqb_refl].
    apply filter_In. split; [|simpl; apply negb_true_iff; now apply has_false_iff].
    rewrite getFlattenedQuestions_flat_map. unfold flatten_spec.
    apply in_flat_map. exists (m, papers). split.
    + apply (Permutation_in _ (Permutation_sym (for_in_perm modules))).
      now apply get_own_Some_In.
    + apply in_flat_map. exists (p, years). split; [exact Hinp|].
      apply in_map_iff. now exists y.
Qed.

Lemma offered_paper_selects_its_questions_witness :
  In (mkQuestion "Chem_P1_2020" "Chem" "P1" "2020")
     (candidates chem_bio ["Bio_P1_2019"] "Chem" "P1").
Proof.
  assert (Hm : "Chem" <> "all") by discriminate.
  assert (Hp : "P1" <> "all") by discriminate.
  destruct (offered_paper_selects_its_questions chem_bio ["Bio_P1_2019"] "Chem"
              "P1" [("P1", ["2020"])] ["2020"] Hm Hp eq_refl eq_refl)
    as [_ [_ [_ Hcand]]].
  apply (Hcand "2020"); [now left|].
  simpl. intros [H | []]. discriminate.
Defined.

(** ** Saving, once more *)

(** X21. A save that fails at its requests (so [btoa] returned) still moves
    the stored SHA: when the GET answered and the PUT was refused, the store holds the SHA the GET
    returned; when the GET said "Not Found" and the PUT was refused, it
    holds none; only when the GET itself fails is the SHA left as it was. *)
Theorem failed_save_moves_the_sha
  (repo pat : string) (get_reply : transport fileData)
  (put_reply : transport string) (rerender : completion unit) (st : store) :
  sessionDoneList st <> [] ->
  encodes st = true ->
  let st1 := after (saveProgressToGithub repo pat get_reply put_reply rerender st) in
  (forall latest message,
      latest_sha repo pat get_reply = Returned latest ->
      githubApiFetch repo pat put_reply = Thrown message ->
      githubFileSha st1 = latest)
  /\ (forall message,
        latest_sha repo pat get_reply = Thrown message ->
        githubFileSha st1 = githubFileSha st).
Proof.
  intros Hne Henc st1. subst st1. rewrite (save_encoded _ _ _ _ _ st Hne Henc).
  unfold send_save. split.
  - intros latest message -> ->. reflexivity.
  - intros message ->. reflexivity.
Qed.

Lemma failed_save_moves_the_sha_witness :
  githubFileSha
    (after (saveProgressToGithub some_repo some_pat (found "def" []) conflict
              (Returned tt) fresh_tick))
  = Some "def".
Proof.
  assert (Hne : sessionDoneList fresh_tick <> []) by discriminate.
  destruct (failed_save_moves_the_sha some_repo some_pat (found "def" [])
              conflict (Returned tt) fresh_tick Hne eq_refl) as [Hput _].
  exact (Hput (Some "def") _ eq_refl eq_refl).
Defined.

(** X22. First save into a repository without a progress file: after a
    load that was answered "Not Found", a save whose GET is answered "Not
    Found" too PUTs exactly the ticked ids, in the order they were ticked,
    with no SHA to guard it, so that the file is created.  The ids are taken
    to hold no character above U+00FF, so that [btoa] returns. *)
Theorem first_save_creates_the_file
  (repo pat : string) (load_reply get_reply : transport fileData)
  (put_reply : transport string) (rerender : completion unit) (st : store)
  (m1 m2 : string) :
  sends repo pat = true ->
  sessionDoneList st <> [] ->
  NoDup (sessionDoneList st) ->
  forallb latin1 (sessionDoneList st) = true ->
  githubApiFetch repo pat load_reply = Thrown m1 ->
  JS.includes m1 "Not Found" = true ->
  githubApiFetch repo pat get_reply = Thrown m2 ->
  JS.includes m2 "Not Found" = true ->
  traffic (saveProgressToGithub repo pat get_reply put_reply rerender
             (after (loadProgressFromGithub repo pat load_reply st)))
  = [GET; PUT (sessionDoneList st) None].
Proof.
  intros Hsends Hne Hnd Hlatin Hload Hnf1 Hget Hnf2.
  assert (Hafter : after (loadProgressFromGithub repo pat load_reply st)
                   = with_master st []).
  { unfold loadProgressFromGithub, load_catch. now rewrite Hload, Hnf1. }
  rewrite Hafter.
  assert (Hmerged : JS.forEach (sessionDoneList st) JS.add [] = sessionDoneList st)
    by exact (forEach_add_fresh (sessionDoneList st) [] Hnd).
  assert (Henc : encodes (with_master st []) = true).
  { unfold encodes. cbn [sessionDoneList masterDoneList with_master].
    now rewrite Hmerged. }
  rewrite (save_encoded _ _ _ _ _ (with_master st []) Hne Henc).
  cbn [sessionDoneList masterDoneList with_master]. rewrite Hmerged.
  unfold send_save, latest_sha. rewrite Hget, Hnf2, Hsends. cbn [negb].
  destruct (githubApiFetch repo pat put_reply) as [newSha | m];
    [destruct rerender|]; reflexivity.
Qed.

Lemma first_save_creates_the_file_witness :
  traffic (saveProgressToGithub some_repo some_pat missing (Replied "abc")
             (Returned tt)
             (after (loadProgressFromGithub some_repo some_pat missing fresh_tick)))
  = [GET; PUT ["Bio_P1_2019"] None].
Proof.
  assert (Hne : sessionDoneList fresh_tick <> []) by discriminate.
  assert (Hnd : NoDup (sessionDoneList fresh_tick)).
  { repeat constructor. intros []. }
  exact (first_save_creates_the_file some_repo some_pat missing missing
           (Replied "abc") (Returned tt) fresh_tick _ _ eq_refl Hne Hnd
           eq_refl eq_refl eq_refl eq_refl eq_refl).
Defined.
